(** * Verification of the data layer of voice-todo-app (js/todos.js, Todos and Links stores)

    JavaScript strings are modelled as lists of UTF-16 code units ([jsstr]);
    [js] turns an ASCII literal into such a list.  Randomness and the clock
    ([Date.now()], [Math.random()]) are inputs of the operations.  Every
    persistence write ([save()]) appends the written collection to a log. *)

From Stdlib Require Import List ZArith String Ascii Bool Lia Permutation Sorting.Sorted.
Import ListNotations.
Open Scope Z_scope.
Set Warnings "-register-all".

(* ------------------------------------------------------------------ *)
(** ** JavaScript strings *)

Definition jsstr := list Z.

Definition js (s : string) : jsstr :=
  map (fun c => Z.of_nat (nat_of_ascii c)) (list_ascii_of_string s).

Definition jseqb (a b : jsstr) : bool :=
  if list_eq_dec Z.eq_dec a b then true else false.

Lemma jseqb_eq (a b : jsstr) : jseqb a b = true <-> a = b.
Proof. unfold jseqb; destruct (list_eq_dec Z.eq_dec a b); split; congruence. Qed.

Definition in_range (lo hi c : Z) : bool := (lo <=? c) && (c <=? hi).

(** ECMAScript WhiteSpace and LineTerminator code units: the set that both
    [String.prototype.trim] and the regular-expression class [\s] use. *)
Definition is_ws (c : Z) : bool :=
  in_range 9 13 c || (c =? 32) || (c =? 160) || (c =? 5760)
  || in_range 8192 8202 c || (c =? 8232) || (c =? 8233) || (c =? 8239)
  || (c =? 8287) || (c =? 12288) || (c =? 65279).

Fixpoint trim_start (s : jsstr) : jsstr :=
  match s with
  | c :: r => if is_ws c then trim_start r else s
  | [] => []
  end.

(** [String.prototype.trim] *)
Definition trim (s : jsstr) : jsstr := rev (trim_start (rev (trim_start s))).

(** JavaScript truthiness of a string: only the empty string is falsy. *)
Definition truthy (s : jsstr) : bool :=
  match s with [] => false | _ => true end.

(** Regular-expression class [\w]. *)
Definition is_word (c : Z) : bool :=
  in_range 48 57 c || in_range 65 90 c || in_range 97 122 c || (c =? 95).

(** [Canonicalize] of a non-unicode, ignore-case regular expression, as far as
    it matters against ASCII pattern characters: a code unit of 128 or more
    never canonicalizes to an ASCII one, so only ASCII letters are folded. *)
Definition upper_ascii (c : Z) : Z := if in_range 97 122 c then c - 32 else c.

Definition ci_eq (c p : Z) : bool := upper_ascii c =? upper_ascii p.

(** [pat] matches case-insensitively at the start of [s]. *)
Fixpoint ci_prefix (pat s : jsstr) : bool :=
  match pat, s with
  | [], _ => true
  | p :: pr, c :: r => ci_eq c p && ci_prefix pr r
  | _ :: _, [] => false
  end.

(** [/^https?:\/\//i.test(s)]: the optional [s] is tried with and without. *)
Definition has_http_scheme (s : jsstr) : bool :=
  ci_prefix (js "https://") s || ci_prefix (js "http://") s.

(** [/\b\w+\.(com|org|net|edu|gov|io|co|uk|dev|app|ai)\b/i.test(s)], by
    trying every start position and every length of [\w+]. *)
Definition tlds : list jsstr :=
  map js ["com"; "org"; "net"; "edu"; "gov"; "io"; "co"; "uk"; "dev"; "app"; "ai"]%string.

Definition word_at (s : jsstr) (i : nat) : bool :=
  match nth_error s i with Some c => is_word c | None => false end.

Definition boundary_at (s : jsstr) (i : nat) : bool :=
  xorb (match i with O => false | S p => word_at s p end) (word_at s i).

Definition words_from (s : jsstr) (i n : nat) : bool :=
  forallb is_word (firstn n (skipn i s)) && (Nat.leb (i + n) (List.length s)).

Definition tld_match_at (s : jsstr) (i : nat) : bool :=
  boundary_at s i &&
  existsb (fun n =>
      words_from s i n && ci_prefix (js ".") (skipn (i + n) s) &&
      existsb (fun t => ci_prefix t (skipn (i + n + 1) s)
                        && boundary_at s (i + n + 1 + List.length t)) tlds)
    (seq 1 (List.length s - i)).

Definition looksLikeUrl (transcript : jsstr) : bool :=
  existsb (tld_match_at transcript) (seq 0 (S (List.length transcript))).

(** [s.replace(/\s+/g, '')] *)
Definition strip_ws (s : jsstr) : jsstr := filter (fun c => negb (is_ws c)) s.

(** [s.replace(/dot/gi, '.')]: left to right, non-overlapping. *)
Fixpoint replace_dot (s : jsstr) : jsstr :=
  match s with
  | a :: ((b :: c :: r) as t) =>
      if ci_eq a 100 && ci_eq b 111 && ci_eq c 116 then 46 :: replace_dot r
      else a :: replace_dot t
  | _ => s
  end.

(** [encodeURIComponent]: unreserved code units are kept, every other code
    point is written as the percent-encoded bytes of its UTF-8 form; a lone
    surrogate throws a [URIError] ([None]). *)
Definition uri_unreserved (c : Z) : bool :=
  in_range 65 90 c || in_range 97 122 c || in_range 48 57 c
  || existsb (Z.eqb c) (js "-_.!~*'()").

Definition hex_digit (d : Z) : Z := if d <? 10 then 48 + d else 55 + d.

Definition pct_byte (b : Z) : jsstr := [37; hex_digit (b / 16); hex_digit (b mod 16)].

Definition utf8 (cp : Z) : list Z :=
  if cp <? 128 then [cp]
  else if cp <? 2048 then [192 + cp / 64; 128 + cp mod 64]
  else if cp <? 65536 then [224 + cp / 4096; 128 + (cp / 64) mod 64; 128 + cp mod 64]
  else [240 + cp / 262144; 128 + (cp / 4096) mod 64; 128 + (cp / 64) mod 64; 128 + cp mod 64].

Definition pct_encode (cp : Z) : jsstr := flat_map pct_byte (utf8 cp).

Fixpoint encodeURIComponent (s : jsstr) : option jsstr :=
  match s with
  | [] => Some []
  | c :: r =>
      if uri_unreserved c then option_map (cons c) (encodeURIComponent r)
      else if in_range 56320 57343 c then None
      else if in_range 55296 56319 c then
        match r with
        | c2 :: r2 =>
            if in_range 56320 57343 c2 then
              option_map (app (pct_encode ((c - 55296) * 1024 + (c2 - 56320) + 65536)))
                         (encodeURIComponent r2)
            else None
        | [] => None
        end
      else option_map (app (pct_encode c)) (encodeURIComponent r)
  end.

(* ------------------------------------------------------------------ *)
(** ** Link Store ([Links] in js/todos.js) *)

(** The two components of a parsed [URL] object that [autoDescribe] reads. *)
Record URL := mkURL { hostname : jsstr; pathname : jsstr }.

Record link := mkLink {
  link_id : jsstr;
  url : jsstr;
  description : jsstr;
  link_createdAt : Z
}.

(** [links] is the in-memory array; [link_saves] the log of
    [Storage.set('vt_links', links)] calls, newest last. *)
Record link_state := mkLinkState { links : list link; link_saves : list (list link) }.

(** [s.split(sep)] *)
Fixpoint split_on (sep : Z) (s : jsstr) : list jsstr :=
  match s with
  | [] => [[]]
  | c :: r =>
      if c =? sep then [] :: split_on sep r
      else match split_on sep r with
           | x :: xs => (c :: x) :: xs
           | [] => [[c]]
           end
  end.

(** [s.replace(/[-_]/g, ' ')] *)
Definition dashes_to_spaces (s : jsstr) : jsstr :=
  map (fun c => if (c =? 45) || (c =? 95) then 32 else c) s.

(** [/^\d+$/.test(s)] *)
Definition all_digits (s : jsstr) : bool := truthy s && forallb (in_range 48 57) s.

(** [cap]: [s.charAt(0).toUpperCase() + s.slice(1)].  The hostname and the
    pathname a URL parser yields are ASCII (IDNA and percent-encoding), where
    [toUpperCase] folds the ASCII letters. *)
Definition cap (s : jsstr) : jsstr :=
  match s with [] => [] | c :: r => upper_ascii c :: r end.

(** [hostname.replace(/^www\./, '')] *)
Definition strip_www (h : jsstr) : jsstr :=
  if jseqb (firstn 4 h) (js "www.") then skipn 4 h else h.

Section LinkStore.

(** [new URL(s)]: [None] when the constructor throws. *)
Variable new_URL : jsstr -> option URL.

Definition autoDescribe (u : jsstr) : jsstr :=
  match new_URL u with
  | None => u
  | Some parsed =>
      let host := strip_www (hostname parsed) in
      let parts := filter truthy
                     (map (fun s => trim (dashes_to_spaces s)) (split_on 47 (pathname parsed))) in
      match parts with
      | [] => cap host
      | _ =>
          match find (fun p => negb (all_digits p) && (1 <? Z.of_nat (List.length p)))
                     (rev parts) with
          | Some lastMeaningful => cap lastMeaningful ++ [32; 8212; 32] ++ host
          | None => cap host
          end
      end
  end.

(** [Links.add(rawUrl)]; [id] is the generated identifier and [now] the
    second [Date.now()] reading. *)
Definition links_add (id : jsstr) (now : Z) (rawUrl : jsstr) (st : link_state) : link_state :=
  let u0 := trim rawUrl in
  if negb (truthy u0) then st
  else
    let u := if has_http_scheme u0 then u0 else js "https://" ++ u0 in
    let l := mkLink id u (autoDescribe u) now in
    let ls := l :: links st in
    mkLinkState ls (link_saves st ++ [ls]).

Definition google_search (q : jsstr) : jsstr := js "https://www.google.com/search?q=" ++ q.

(** The [onResult] callback the link mic button hands to [SpeechModule.toggle].
    [None] is the [URIError] that [encodeURIComponent] throws on a lone
    surrogate. *)
Definition onResult (id : jsstr) (now : Z) (transcript : jsstr) (st : link_state)
  : option link_state :=
  let fallback :=
    option_map (fun q => links_add id now (google_search q) st)
               (encodeURIComponent transcript) in
  if looksLikeUrl transcript then
    let cleaned := replace_dot (strip_ws transcript) in
    let candidate := if has_http_scheme cleaned then cleaned else js "https://" ++ cleaned in
    match new_URL candidate with
    | Some _ => Some (links_add id now cleaned st)
    | None => fallback
    end
  else fallback.

End LinkStore.

(** Forbidden domain code points of the WHATWG URL standard that can occur in
    the ASCII hosts the model below covers. *)
Definition forbidden_domain_cp (c : Z) : bool :=
  (c <=? 32) || (c =? 127) || existsb (Z.eqb c) (js "#%/:<>?@[\]^|").

(** [(a, b)] with [a ++ b = s] and [a] the longest prefix without a [stop]
    code unit. *)
Fixpoint take_until (stop : Z -> bool) (s : jsstr) : jsstr * jsstr :=
  match s with
  | [] => ([], [])
  | c :: r => if stop c then ([], s) else let (a, b) := take_until stop r in (c :: a, b)
  end.

Definition lower_ascii (c : Z) : Z := if in_range 65 90 c then c + 32 else c.

(** A model of [new URL(s)], used to run the Link Store on concrete inputs.
    It covers absolute URLs [http(s)://host[:port][path][?query][#fragment]]
    without tab, newline, backslash, userinfo or [%] in the host, and without
    a numeric last host label, on which it follows the WHATWG parser: the
    host is lower-cased; an empty host, a non-digit port or a forbidden domain
    code point in the host make the parse fail.  The pathname is kept as
    written (dot segments and percent-encoding of the path are not modelled),
    and inputs of other forms are not modelled ([None]). *)
Definition new_URL_subset (s : jsstr) : option URL :=
  let rest :=
    if ci_prefix (js "https://") s then Some (skipn 8 s)
    else if ci_prefix (js "http://") s then Some (skipn 7 s) else None in
  match rest with
  | None => None
  | Some rest =>
      let (auth, tail) := take_until (fun c => existsb (Z.eqb c) (js "/?#")) rest in
      let (host, port) := take_until (Z.eqb 58) auth in
      let path := fst (take_until (fun c => (c =? 63) || (c =? 35)) tail) in
      if negb (truthy host) || existsb forbidden_domain_cp host
         || existsb (fun c => 128 <=? c) host then None
      else if negb (forallb (in_range 48 57) (skipn 1 port)) then None
      else Some (mkURL (map lower_ascii host) (if truthy path then path else js "/"))
  end.

(* ------------------------------------------------------------------ *)
(** ** Task Store ([Todos] in js/todos.js) *)

Record subtask := mkSubtask { sub_id : jsstr; sub_text : jsstr; sub_completed : bool }.

(** A task record; [deadline] is [null] ([None]) or a [YYYY-MM-DD] string. *)
Record todo := mkTodo {
  todo_id : jsstr;
  text : jsstr;
  completed : bool;
  createdAt : Z;
  deadline : option jsstr;
  priority : jsstr;
  subtasks : list subtask;
  categories : list jsstr
}.

(** [todos] is the in-memory array; [saves] the log of
    [Storage.set('vt_todos', todos)] calls, newest last. *)
Record todo_state := mkTodoState { todos : list todo; saves : list (list todo) }.

(** The [opts] argument of [add]; [opt_categories] is [Some] exactly when
    [Array.isArray(opts.categories)]. *)
Record add_opts := mkOpts {
  opt_deadline : option jsstr;
  opt_priority : option jsstr;
  opt_categories : option (list jsstr)
}.

Definition no_opts : add_opts := mkOpts None None None.

Definition save (st : todo_state) (ts : list todo) : todo_state :=
  mkTodoState ts (saves st ++ [ts]).

(** [todos.find(p)] followed by a mutation of the found object. *)
Fixpoint update_first {A} (p : A -> bool) (f : A -> A) (l : list A) : list A :=
  match l with
  | [] => []
  | x :: r => if p x then f x :: r else x :: update_first p f r
  end.

Definition has_id (id : jsstr) (t : todo) : bool := jseqb (todo_id t) id.

Definition set_completed (b : bool) (t : todo) : todo :=
  mkTodo (todo_id t) (text t) b (createdAt t) (deadline t) (priority t) (subtasks t) (categories t).

Definition set_text (s : jsstr) (t : todo) : todo :=
  mkTodo (todo_id t) s (completed t) (createdAt t) (deadline t) (priority t) (subtasks t) (categories t).

Definition set_subtasks (ss : list subtask) (t : todo) : todo :=
  mkTodo (todo_id t) (text t) (completed t) (createdAt t) (deadline t) (priority t) ss (categories t).

(** [add(text, opts)]; [id] is [genId('todo')] and [now] is [Date.now()]. *)
Definition add (id : jsstr) (now : Z) (text0 : jsstr) (opts : add_opts) (st : todo_state)
  : todo_state :=
  let trimmed := trim text0 in
  if negb (truthy trimmed) then st
  else
    let t := mkTodo id trimmed false now
               (match opt_deadline opts with
                | Some d => if truthy d then Some d else None
                | None => None
                end)
               (match opt_priority opts with
                | Some p => if truthy p then p else js "medium"
                | None => js "medium"
                end)
               []
               (match opt_categories opts with Some cs => cs | None => [] end) in
    save st (t :: todos st).

Definition toggle (id : jsstr) (st : todo_state) : todo_state :=
  match find (has_id id) (todos st) with
  | None => st
  | Some _ => save st (update_first (has_id id) (fun t => set_completed (negb (completed t)) t) (todos st))
  end.

Definition update (id : jsstr) (newText : jsstr) (st : todo_state) : todo_state :=
  let trimmed := trim newText in
  if negb (truthy trimmed) then st
  else match find (has_id id) (todos st) with
       | None => st
       | Some _ => save st (update_first (has_id id) (set_text trimmed) (todos st))
       end.

(** [addSubtask(todoId, text)]; [subId] is [genId('sub')]. *)
Definition addSubtask (todoId subId : jsstr) (text0 : jsstr) (st : todo_state) : todo_state :=
  let trimmed := trim text0 in
  if negb (truthy trimmed) then st
  else match find (has_id todoId) (todos st) with
       | None => st
       | Some _ =>
           save st (update_first (has_id todoId)
                      (fun t => set_subtasks (subtasks t ++ [mkSubtask subId trimmed false]) t)
                      (todos st))
       end.

(** [priorityValue(p)] *)
Definition priorityValue (p : jsstr) : Z :=
  if jseqb p (js "high") then 3 else if jseqb p (js "low") then 1 else 2.

(** Numbers a comparator can return: [Infinity - x] and [x - Infinity] are
    infinite, [Infinity - Infinity] and anything involving an Invalid Date is
    [NaN]. *)
Inductive jsnum := Num (z : Z) | PosInf | NegInf | NaN.

Definition num_sub (a b : jsnum) : jsnum :=
  match a, b with
  | Num x, Num y => Num (x - y)
  | Num _, PosInf | NegInf, Num _ | NegInf, PosInf => NegInf
  | Num _, NegInf | PosInf, Num _ | PosInf, NegInf => PosInf
  | _, _ => NaN
  end.

(** The sign [SortCompare] takes from the comparator's result ([NaN] is [+0]). *)
Definition sort_compare_value (n : jsnum) : Z :=
  match n with Num z => z | PosInf => 1 | NegInf => -1 | NaN => 0 end.

(** [Array.prototype.sort(cmp)]: ECMAScript requires a stable sort, and for
    a consistent comparator its result is the stable insertion sort below. *)
Fixpoint insert_by {A} (cmp : A -> A -> jsnum) (x : A) (l : list A) : list A :=
  match l with
  | [] => [x]
  | y :: r => if 0 <? sort_compare_value (cmp x y) then y :: insert_by cmp x r else x :: l
  end.

Definition array_sort {A} (cmp : A -> A -> jsnum) (l : list A) : list A :=
  fold_right (insert_by cmp) [] l.

Section Clock.

(** The calendar day (as a day number) that the host's [Date] string parser
    reads from its argument, [None] for an Invalid Date. *)
Variable date_of_string : jsstr -> option Z.
(** The time value of local midnight starting a given day. *)
Variable local_midnight : Z -> Z.
(** The current local calendar day, the date of [new Date()]. *)
Variable today_day : Z.

(** [parseDeadline(dateStr)]: [new Date(dateStr + 'T00:00:00')]. *)
Definition parseDeadline (dateStr : jsstr) : option Z :=
  option_map local_midnight (date_of_string (dateStr ++ js "T00:00:00")).

(** [new Date(now.getFullYear(), now.getMonth(), now.getDate())] *)
Definition today : Z := local_midnight today_day.

(** [tomorrow.setDate(today.getDate() + 1)] *)
Definition tomorrow : Z := local_midnight (today_day + 1).

Definition deadline_truthy (t : todo) : bool :=
  match deadline t with Some d => truthy d | None => false end.

Definition isOverdue (t : todo) : bool :=
  if negb (deadline_truthy t) || completed t then false
  else match deadline t with
       | Some d => match parseDeadline d with Some due => due <? today | None => false end
       | None => false
       end.

Definition isWarning (t : todo) : bool :=
  if negb (deadline_truthy t) || completed t then false
  else match deadline t with
       | Some d =>
           match parseDeadline d with
           | Some due => (today <=? due) && (due <=? tomorrow)
           | None => false
           end
       | None => false
       end.

(** [a.deadline ? parseDeadline(a.deadline).getTime() : Infinity] *)
Definition deadline_key (t : todo) : jsnum :=
  match deadline t with
  | Some d => if truthy d then match parseDeadline d with Some v => Num v | None => NaN end
              else PosInf
  | None => PosInf
  end.

Definition sort_cmp (currentSort : jsstr) : todo -> todo -> jsnum :=
  if jseqb currentSort (js "oldest") then fun a b => Num (createdAt a - createdAt b)
  else if jseqb currentSort (js "deadline") then fun a b => num_sub (deadline_key a) (deadline_key b)
  else if jseqb currentSort (js "priority") then
    fun a b => Num (priorityValue (priority b) - priorityValue (priority a))
  else fun a b => Num (createdAt b - createdAt a).

Definition apply_filter (currentFilter : jsstr) (l : list todo) : list todo :=
  if jseqb currentFilter (js "active") then filter (fun t => negb (completed t)) l
  else if jseqb currentFilter (js "completed") then filter completed l
  else if jseqb currentFilter (js "overdue") then filter isOverdue l
  else l.

(** [getVisible()] under the current filter and sort. *)
Definition getVisible (currentFilter currentSort : jsstr) (ts : list todo) : list todo :=
  array_sort (sort_cmp currentSort) (apply_filter currentFilter ts).

End Clock.

(* ------------------------------------------------------------------ *)
(** ** Persistence and the migration in [load()] *)

(** Values [JSON.parse] yields; an object is its list of own enumerable
    properties in key order. *)
Inductive json :=
| JNull
| JBool (b : bool)
| JNum (z : Z)
| JStr (s : jsstr)
| JArr (xs : list json)
| JObj (ps : list (jsstr * json)).

Fixpoint get_prop (ps : list (jsstr * json)) (k : jsstr) : option json :=
  match ps with
  | [] => None
  | (k', v) :: r => if jseqb k' k then Some v else get_prop r k
  end.

(** Assignment of an own data property: an existing key keeps its place. *)
Fixpoint set_prop (ps : list (jsstr * json)) (k : jsstr) (v : json) : list (jsstr * json) :=
  match ps with
  | [] => [(k, v)]
  | (k', v') :: r => if jseqb k' k then (k', v) :: r else (k', v') :: set_prop r k v
  end.

Fixpoint dec_digits (fuel : nat) (n : Z) : jsstr :=
  match fuel with
  | O => []
  | S f => if n <? 10 then [48 + n] else dec_digits f (n / 10) ++ [48 + n mod 10]
  end.

(** The property key of array index [i]. *)
Definition index_key (i : nat) : jsstr := dec_digits (S i) (Z.of_nat i).

Definition indexed {A} (xs : list A) : list (jsstr * A) :=
  combine (map index_key (seq 0 (List.length xs))) xs.

(** The own enumerable properties that [...t] copies. *)
Definition own_props (t : json) : list (jsstr * json) :=
  match t with
  | JObj ps => ps
  | JArr xs => indexed xs
  | JStr s => indexed (map (fun c => JStr [c]) s)
  | _ => []
  end.

(** [{ ...target, ...src }] *)
Definition spread (target : list (jsstr * json)) (src : json) : list (jsstr * json) :=
  fold_left (fun acc kv => set_prop acc (fst kv) (snd kv)) (own_props src) target.

Definition migration_defaults : list (jsstr * json) :=
  [(js "deadline", JNull); (js "priority", JStr (js "medium"));
   (js "subtasks", JArr []); (js "categories", JArr [])].

(** [(t) => ({ deadline: null, priority: 'medium', subtasks: [], categories: [], ...t })] *)
Definition migrate (t : json) : json := JObj (spread migration_defaults t).

(** What the browser holds: [localStorage] key/value strings, and the
    in-memory [todos] array of the Todos module. *)
Record app_state := mkAppState {
  mem_todos : list json;
  local_storage : list (jsstr * jsstr)
}.

Fixpoint storage_lookup (ls : list (jsstr * jsstr)) (k : jsstr) : option jsstr :=
  match ls with
  | [] => None
  | (k', v) :: r => if jseqb k' k then Some v else storage_lookup r k
  end.

Section Persistence.

(** [JSON.parse]: [None] when it throws. *)
Variable JSON_parse : jsstr -> option json.

(** [Storage.get(key, defaultValue)] *)
Definition storage_get (ls : list (jsstr * jsstr)) (key : jsstr) (defaultValue : json) : json :=
  match storage_lookup ls key with
  | None => defaultValue
  | Some raw => match JSON_parse raw with Some v => v | None => defaultValue end
  end.

Definition STORAGE_KEY : jsstr := js "vt_todos".

(** [Todos.load()]; [None] is the [TypeError] of [raw.map] on a non-array. *)
Definition load (st : app_state) : option app_state :=
  match storage_get (local_storage st) STORAGE_KEY (JArr []) with
  | JArr raw => Some (mkAppState (map migrate raw) (local_storage st))
  | _ => None
  end.

End Persistence.

(* ------------------------------------------------------------------ *)
(** ** The remaining mutations of both stores *)

(** Task Store [remove(id)]: [todos.filter((t) => t.id !== id)]. *)
Definition remove (id : jsstr) (st : todo_state) : todo_state :=
  save st (filter (fun t => negb (has_id id t)) (todos st)).

Definition has_sub_id (subId : jsstr) (s : subtask) : bool := jseqb (sub_id s) subId.

Definition flip_sub (s : subtask) : subtask :=
  mkSubtask (sub_id s) (sub_text s) (negb (sub_completed s)).

(** [toggleSubtask(todoId, subId)] *)
Definition toggleSubtask (todoId subId : jsstr) (st : todo_state) : todo_state :=
  match find (has_id todoId) (todos st) with
  | None => st
  | Some t =>
      match find (has_sub_id subId) (subtasks t) with
      | None => st
      | Some _ =>
          save st (update_first (has_id todoId)
                     (fun t => set_subtasks (update_first (has_sub_id subId) flip_sub (subtasks t)) t)
                     (todos st))
      end
  end.

(** [removeSubtask(todoId, subId)]: only the task is looked up. *)
Definition removeSubtask (todoId subId : jsstr) (st : todo_state) : todo_state :=
  match find (has_id todoId) (todos st) with
  | None => st
  | Some _ =>
      save st (update_first (has_id todoId)
                 (fun t => set_subtasks (filter (fun s => negb (has_sub_id subId s)) (subtasks t)) t)
                 (todos st))
  end.

Definition has_link_id (id : jsstr) (l : link) : bool := jseqb (link_id l) id.

Definition link_save (st : link_state) (ls : list link) : link_state :=
  mkLinkState ls (link_saves st ++ [ls]).

(** Link Store [remove(id)] *)
Definition links_remove (id : jsstr) (st : link_state) : link_state :=
  link_save st (filter (fun l => negb (has_link_id id l)) (links st)).

Definition set_description (d : jsstr) (l : link) : link :=
  mkLink (link_id l) (url l) d (link_createdAt l).

(** [updateDesc(id, newDesc)]: [link.description = newDesc.trim() || link.description]. *)
Definition updateDesc (id newDesc : jsstr) (st : link_state) : link_state :=
  match find (has_link_id id) (links st) with
  | None => st
  | Some _ =>
      link_save st (update_first (has_link_id id)
                      (fun l => set_description
                                  (let d := trim newDesc in if truthy d then d else description l) l)
                      (links st))
  end.

(** [str.replace(/c/g, rep)] for a one-code-unit pattern [c]. *)
Definition replace_all_unit (c : Z) (rep : jsstr) (s : jsstr) : jsstr :=
  flat_map (fun x => if x =? c then rep else [x]) s.

(** [escHtml(str)]: the five replacements in the order of the source. *)
Definition escHtml (str : jsstr) : jsstr :=
  replace_all_unit 39 (js "&#39;")
    (replace_all_unit 34 (js "&quot;")
       (replace_all_unit 62 (js "&gt;")
          (replace_all_unit 60 (js "&lt;")
             (replace_all_unit 38 (js "&amp;") str)))).

(** HTML character-reference decoding of the five entities [escHtml] writes
    (what a browser does to an attribute value or text), used to state that
    escaping loses nothing. *)
Fixpoint html_unescape (s : jsstr) : jsstr :=
  match s with
  | [] => []
  | c :: r =>
      if negb (c =? 38) then c :: html_unescape r
      else match r with
           | a :: b :: d :: r3 =>
               if jseqb [a; b; d] (js "lt;") then 60 :: html_unescape r3
               else if jseqb [a; b; d] (js "gt;") then 62 :: html_unescape r3
               else match r3 with
                    | e :: r4 =>
                        if jseqb [a; b; d; e] (js "amp;") then 38 :: html_unescape r4
                        else if jseqb [a; b; d; e] (js "#39;") then 39 :: html_unescape r4
                        else match r4 with
                             | f :: r5 =>
                                 if jseqb [a; b; d; e; f] (js "quot;") then 34 :: html_unescape r5
                                 else c :: html_unescape r
                             | [] => c :: html_unescape r
                             end
                    | [] => c :: html_unescape r
                    end
           | _ => c :: html_unescape r
           end
  end.

(* ================================================================== *)
(** * Properties *)

(** ** Strings *)

Lemma trim_start_all_ws (s : jsstr) : forallb is_ws s = true -> trim_start s = [].
Proof.
  induction s as [|c r IH]; simpl; [reflexivity|].
  intros H; apply andb_true_iff in H as [Hc Hr]; rewrite Hc; auto.
Qed.

Lemma trim_all_ws (s : jsstr) : forallb is_ws s = true -> trim s = [].
Proof. intros H; unfold trim; rewrite (trim_start_all_ws s H); reflexivity. Qed.

(** ** Link Store *)

Definition no_links : link_state := mkLinkState [] [].

(** C1: the transcript "github dot com slash octocat" contains no literal
    "." in front of an allow-listed TLD, so the voice handler does not treat
    it as a URL: whatever [new URL] does, it saves a Google search for the
    transcript, whose URL is not https://github.com/octocat. *)
Theorem onResult_github_dot_com_is_searched :
  forall new_URL id now st,
    looksLikeUrl (js "github dot com slash octocat") = false /\
    exists st' l,
      onResult new_URL id now (js "github dot com slash octocat") st = Some st' /\
      links st' = l :: links st /\
      url l = js "https://www.google.com/search?q=github%20dot%20com%20slash%20octocat" /\
      url l <> js "https://github.com/octocat".
Proof.
  intros new_URL id now st.
  assert (Hl : looksLikeUrl (js "github dot com slash octocat") = false)
    by (vm_compute; reflexivity).
  split; [exact Hl|].
  assert (He : encodeURIComponent (js "github dot com slash octocat")
               = Some (js "github%20dot%20com%20slash%20octocat")) by (vm_compute; reflexivity).
  set (g := js "https://www.google.com/search?q=github%20dot%20com%20slash%20octocat").
  assert (Ht : trim g = g) by (vm_compute; reflexivity).
  assert (Hs : has_http_scheme g = true) by (vm_compute; reflexivity).
  assert (Hg : google_search (js "github%20dot%20com%20slash%20octocat") = g)
    by (vm_compute; reflexivity).
  unfold onResult; rewrite Hl, He; cbn [option_map]; rewrite Hg.
  eexists; exists (mkLink id g (autoDescribe new_URL g) now).
  split; [reflexivity|].
  unfold links_add; rewrite Ht, Hs; cbn [truthy negb].
  replace (truthy g) with true by (vm_compute; reflexivity); cbn.
  split; [reflexivity|]; split; [reflexivity|].
  vm_compute; discriminate.
Qed.

(** What [Links.add] does with a non-blank input, whatever [new URL] does. *)
Lemma links_add_nonblank new_URL id now raw st :
  truthy (trim raw) = true ->
  let u := if has_http_scheme (trim raw) then trim raw else js "https://" ++ trim raw in
  links_add new_URL id now raw st
  = mkLinkState (mkLink id u (autoDescribe new_URL u) now :: links st)
                (link_saves st ++ [mkLink id u (autoDescribe new_URL u) now :: links st]).
Proof. intros H u; unfold links_add; rewrite H; reflexivity. Qed.

(** C10: an input whose trimmed form does not start with [http://] or
    [https://] (in any letter case) is stored as ["https://"] followed by the
    trimmed input; any other scheme, such as [ftp://], is not recognised. *)
Theorem links_add_prepends_https :
  forall new_URL id now raw st,
    truthy (trim raw) = true ->
    has_http_scheme (trim raw) = false ->
    exists l, links (links_add new_URL id now raw st) = l :: links st
              /\ url l = js "https://" ++ trim raw.
Proof.
  intros new_URL id now raw st Hne Hs.
  rewrite (links_add_nonblank new_URL id now raw st Hne); cbn zeta; rewrite Hs.
  eexists; split; reflexivity.
Qed.

Lemma links_add_prepends_https_witness :
  truthy (trim (js " ftp://example.com ")) = true /\
  has_http_scheme (trim (js " ftp://example.com ")) = false /\
  exists l, links (links_add new_URL_subset (js "link_1") 0 (js " ftp://example.com ") no_links)
            = [l] /\ url l = js "https://ftp://example.com".
Proof.
  assert (H1 : truthy (trim (js " ftp://example.com ")) = true) by (vm_compute; reflexivity).
  assert (H2 : has_http_scheme (trim (js " ftp://example.com ")) = false)
    by (vm_compute; reflexivity).
  split; [exact H1|]; split; [exact H2|].
  destruct (links_add_prepends_https new_URL_subset (js "link_1") 0 (js " ftp://example.com ")
              no_links H1 H2) as [l [Hl Hu]].
  exists l; split; [exact Hl|].
  rewrite Hu; vm_compute; reflexivity.
Defined.

(** C2 (counterexample): ["a b"] gives ["https://a b"], which [new URL]
    rejects (a space is a forbidden host code point), yet [Links.add] still
    prepends a record, whose description falls back to the URL itself. *)
Lemma links_add_malformed_is_stored :
  new_URL_subset (js "https://a b") = None /\
  links (links_add new_URL_subset (js "link_1") 0 (js "a b") no_links)
  = [mkLink (js "link_1") (js "https://a b") (js "https://a b") 0].
Proof. split; vm_compute; reflexivity. Qed.

(** C2 (amended): [Links.add] never validates: every non-blank input,
    parseable or not, prepends exactly one record with the normalised URL
    and triggers one write; when [new URL] rejects the URL the description is
    the URL string itself. *)
Theorem links_add_never_declines :
  forall new_URL id now raw st,
    truthy (trim raw) = true ->
    let u := if has_http_scheme (trim raw) then trim raw else js "https://" ++ trim raw in
    let st' := links_add new_URL id now raw st in
    (exists l, links st' = l :: links st /\ url l = u /\ description l = autoDescribe new_URL u)
    /\ link_saves st' = link_saves st ++ [links st']
    /\ (new_URL u = None -> autoDescribe new_URL u = u).
Proof.
  intros new_URL id now raw st Hne u st'.
  subst st'; rewrite (links_add_nonblank new_URL id now raw st Hne); fold u; cbn.
  split; [eexists; repeat split; reflexivity|]; split; [reflexivity|].
  intros Hn; unfold autoDescribe; rewrite Hn; reflexivity.
Qed.

Lemma links_add_never_declines_witness :
  truthy (trim (js "a b")) = true /\
  new_URL_subset (js "https://a b") = None /\
  links (links_add new_URL_subset (js "link_1") 0 (js "a b") no_links) <> [].
Proof.
  assert (H1 : truthy (trim (js "a b")) = true) by (vm_compute; reflexivity).
  split; [exact H1|]; split; [vm_compute; reflexivity|].
  destruct (links_add_never_declines new_URL_subset (js "link_1") 0 (js "a b") no_links H1)
    as [[l [Hl _]] _].
  rewrite Hl; discriminate.
Defined.

(** ** [Array.prototype.sort] *)

Lemma insert_by_perm {A} (cmp : A -> A -> jsnum) (x : A) (l : list A) :
  Permutation (insert_by cmp x l) (x :: l).
Proof.
  induction l as [|y r IH]; simpl; [reflexivity|].
  destruct (0 <? sort_compare_value (cmp x y)); [|reflexivity].
  etransitivity; [apply perm_skip, IH | apply perm_swap].
Qed.

Lemma array_sort_perm {A} (cmp : A -> A -> jsnum) (l : list A) :
  Permutation (array_sort cmp l) l.
Proof.
  induction l as [|x r IH]; simpl; [reflexivity|].
  etransitivity; [apply insert_by_perm | apply perm_skip, IH].
Qed.

Section DescendingKey.

Context {A : Type} (key : A -> Z).

(** The comparator [(a, b) => key(b) - key(a)]: descending by key. *)
Definition desc_cmp (a b : A) : jsnum := Num (key b - key a).

Definition key_ge (a b : A) : Prop := key b <= key a.

Lemma insert_desc_sorted (x : A) (l : list A) :
  StronglySorted key_ge l -> StronglySorted key_ge (insert_by desc_cmp x l).
Proof.
  induction l as [|y r IH]; intros Hs; simpl.
  - constructor; [constructor | constructor].
  - inversion Hs as [|? ? Hr Hy]; subst.
    change (sort_compare_value (desc_cmp x y)) with (key y - key x).
    destruct (Z.ltb_spec 0 (key y - key x)) as [Hlt|Hge].
    + constructor; [apply IH, Hr|].
      apply Forall_forall; intros z Hz.
      apply (Permutation_in _ (insert_by_perm desc_cmp x r)) in Hz.
      destruct Hz as [<-|Hz]; unfold key_ge; [lia|].
      exact (proj1 (Forall_forall _ _) Hy z Hz).
    + constructor; [exact Hs|].
      constructor; unfold key_ge; [lia|].
      eapply Forall_impl; [|exact Hy]; unfold key_ge; intros; lia.
Qed.

Lemma array_sort_desc_sorted (l : list A) : StronglySorted key_ge (array_sort desc_cmp l).
Proof.
  induction l as [|x r IH]; simpl; [constructor|].
  apply insert_desc_sorted, IH.
Qed.

Lemma filter_insert_desc (k : Z) (x : A) (l : list A) :
  filter (fun t => key t =? k) (insert_by desc_cmp x l)
  = if key x =? k then x :: filter (fun t => key t =? k) l
    else filter (fun t => key t =? k) l.
Proof.
  induction l as [|y r IH]; simpl; [destruct (key x =? k); reflexivity|].
  change (sort_compare_value (desc_cmp x y)) with (key y - key x).
  destruct (Z.ltb_spec 0 (key y - key x)) as [Hlt|Hge]; simpl; [|reflexivity].
  rewrite IH.
  destruct (Z.eqb_spec (key x) k), (Z.eqb_spec (key y) k); try reflexivity; lia.
Qed.

(** Stability: within one key, the sorted list keeps the input order. *)
Lemma filter_array_sort_desc (k : Z) (l : list A) :
  filter (fun t => key t =? k) (array_sort desc_cmp l) = filter (fun t => key t =? k) l.
Proof.
  induction l as [|x r IH]; [reflexivity|].
  unfold array_sort; cbn [fold_right]; fold (array_sort desc_cmp r).
  rewrite filter_insert_desc, IH; cbn [filter]; reflexivity.
Qed.

End DescendingKey.

(** ** Task Store: derived views *)

Lemma isOverdue_spec dos lm td (t : todo) :
  isOverdue dos lm td t = true <->
  completed t = false /\
  exists d due, deadline t = Some d /\ truthy d = true /\
                parseDeadline dos lm d = Some due /\ due < today lm td.
Proof.
  unfold isOverdue, deadline_truthy.
  destruct (deadline t) as [d|]; [|split; [discriminate | intros [_ [? [? [? _]]]]; discriminate]].
  destruct (truthy d) eqn:Ht; destruct (completed t) eqn:Hc; simpl;
    try (split; [discriminate | intros [H1 [? [? [E [H2 _]]]]]; congruence]).
  destruct (parseDeadline dos lm d) as [due|] eqn:Hp.
  - rewrite Z.ltb_lt; split.
    + intros H; split; [reflexivity|]; exists d, due; auto.
    + intros [_ [d' [due' [E [_ [Hp' Hlt]]]]]]; injection E as <-; congruence.
  - split; [discriminate|].
    intros [_ [d' [due' [E [_ [Hp' _]]]]]]; injection E as <-; congruence.
Qed.

(** C3: under the filter ['overdue'], [getVisible()] returns, in some order,
    exactly the tasks that are not completed and have a deadline whose local
    midnight is strictly before today's local midnight, for every sort order
    and every current day. *)
Theorem getVisible_overdue :
  forall date_of_string local_midnight today_day currentSort ts,
    let out := getVisible date_of_string local_midnight today_day (js "overdue") currentSort ts in
    Permutation out (filter (isOverdue date_of_string local_midnight today_day) ts) /\
    forall t, In t out <->
      In t ts /\ completed t = false /\
      exists d due, deadline t = Some d /\ truthy d = true /\
        parseDeadline date_of_string local_midnight d = Some due /\
        due < today local_midnight today_day.
Proof.
  intros dos lm td srt ts out.
  assert (Hp : Permutation out (filter (isOverdue dos lm td) ts))
    by (apply array_sort_perm).
  split; [exact Hp|].
  intros t; split.
  - intros Hin; apply (Permutation_in _ Hp), filter_In in Hin as [Hin Ho].
    split; [exact Hin|]; apply isOverdue_spec, Ho.
  - intros [Hin Ho]; apply (Permutation_in _ (Permutation_sym Hp)), filter_In.
    split; [exact Hin|]; apply isOverdue_spec, Ho.
Qed.

(** C6: under the sort ['priority'], for every filter, [getVisible()] is a
    reordering of the filtered tasks in which a task never comes before one
    of higher [priorityValue] (high = 3, medium = 2, low = 1), and the tasks
    of one rank keep their order in the collection. *)
Theorem getVisible_priority :
  forall date_of_string local_midnight today_day currentFilter ts,
    let pv (t : todo) := priorityValue (priority t) in
    let filtered := apply_filter date_of_string local_midnight today_day currentFilter ts in
    let out := getVisible date_of_string local_midnight today_day currentFilter (js "priority") ts in
    Permutation out filtered /\
    StronglySorted (fun a b => pv b <= pv a) out /\
    forall r, filter (fun t => pv t =? r) out = filter (fun t => pv t =? r) filtered.
Proof.
  intros dos lm td flt ts pv filtered out.
  assert (Hc : sort_cmp dos lm (js "priority") = desc_cmp pv) by reflexivity.
  unfold out, getVisible; rewrite Hc; fold filtered.
  split; [apply array_sort_perm|]; split.
  - apply (array_sort_desc_sorted pv).
  - intros r; apply filter_array_sort_desc.
Qed.

(** C7: a task that is not completed and whose deadline is today's date is
    in warning and not overdue (given that local midnights increase from one
    day to the next); a completed task, or one without a deadline, is
    neither. *)
Theorem isWarning_isOverdue_today :
  forall date_of_string local_midnight today_day,
    (forall day, local_midnight day < local_midnight (day + 1)) ->
    (forall t d,
        completed t = false -> deadline t = Some d -> truthy d = true ->
        date_of_string (d ++ js "T00:00:00") = Some today_day ->
        isWarning date_of_string local_midnight today_day t = true /\
        isOverdue date_of_string local_midnight today_day t = false) /\
    (forall t,
        completed t = true \/ deadline t = None ->
        isWarning date_of_string local_midnight today_day t = false /\
        isOverdue date_of_string local_midnight today_day t = false).
Proof.
  intros dos lm td Hmono; split.
  - intros t d Hc Hd Ht Hs.
    assert (Hp : parseDeadline dos lm d = Some (lm td))
      by (unfold parseDeadline; rewrite Hs; reflexivity).
    unfold isWarning, isOverdue, deadline_truthy, today, tomorrow.
    rewrite Hd, Ht, Hc, Hp; simpl.
    specialize (Hmono td).
    rewrite Z.leb_refl, Z.ltb_irrefl; simpl.
    split; [apply Z.leb_le; lia | reflexivity].
  - intros t [Hc|Hd]; unfold isWarning, isOverdue, deadline_truthy.
    + rewrite Hc, orb_true_r; split; reflexivity.
    + rewrite Hd; split; reflexivity.
Qed.

Definition today_2026_10_19 : Z := 20745.

(** A [Date] string parser that knows one date, and UTC as local time. *)
Definition sample_date_of_string (s : jsstr) : option Z :=
  if jseqb s (js "2026-10-19T00:00:00") then Some today_2026_10_19 else None.

Definition utc_midnight (day : Z) : Z := day * 86400000.

Definition rent_task : todo :=
  mkTodo (js "todo_1") (js "Pay rent") false 0 (Some (js "2026-10-19")) (js "medium") [] [].

Lemma isWarning_isOverdue_today_witness :
  (forall day, utc_midnight day < utc_midnight (day + 1)) /\
  isWarning sample_date_of_string utc_midnight today_2026_10_19 rent_task = true /\
  isOverdue sample_date_of_string utc_midnight today_2026_10_19 rent_task = false.
Proof.
  assert (Hm : forall day, utc_midnight day < utc_midnight (day + 1))
    by (intros day; unfold utc_midnight; lia).
  split; [exact Hm|].
  apply (proj1 (isWarning_isOverdue_today sample_date_of_string utc_midnight today_2026_10_19 Hm)
           rent_task (js "2026-10-19")); reflexivity.
Defined.

(** ** Task Store: mutations *)

Definition flip (t : todo) : todo := set_completed (negb (completed t)) t.

Lemma has_id_set_completed id b t : has_id id (set_completed b t) = has_id id t.
Proof. reflexivity. Qed.

Lemma flip_flip t : flip (flip t) = t.
Proof. destruct t; unfold flip, set_completed; simpl; rewrite negb_involutive; reflexivity. Qed.

Lemma update_first_flip_twice id (l : list todo) :
  update_first (has_id id) flip (update_first (has_id id) flip l) = l.
Proof.
  assert (Hf : forall x, has_id id (flip x) = has_id id x) by (intros; reflexivity).
  induction l as [|x r IH]; cbn [update_first]; [reflexivity|].
  destruct (has_id id x) eqn:Hx; cbn [update_first].
  - rewrite Hf, Hx, flip_flip; reflexivity.
  - rewrite Hx, IH; reflexivity.
Qed.

Lemma find_update_first {A} (p : A -> bool) (f : A -> A) (l : list A) :
  (forall x, p (f x) = p x) -> find p (update_first p f l) = option_map f (find p l).
Proof.
  intros Hf; induction l as [|x r IH]; simpl; [reflexivity|].
  destruct (p x) eqn:Hx; simpl; [rewrite Hf, Hx; reflexivity | rewrite Hx; exact IH].
Qed.

Lemma find_has_id_in id (l : list todo) :
  In id (map todo_id l) -> exists t, find (has_id id) l = Some t.
Proof.
  induction l as [|x r IH]; simpl; [contradiction|].
  intros Hin; destruct (has_id id x) eqn:Hx; [eauto|].
  apply IH; destruct Hin as [E|H]; [|exact H].
  unfold has_id in Hx; rewrite E in Hx.
  destruct (jseqb_eq id id) as [_ H]; rewrite H in Hx; [discriminate | reflexivity].
Qed.

(** C9: for an id present in the collection, two [toggle(id)] calls restore
    the collection exactly (the first flips the found task's completion
    flag), and each call writes the collection once. *)
Theorem toggle_twice :
  forall id st,
    In id (map todo_id (todos st)) ->
    let st1 := toggle id st in
    let st2 := toggle id st1 in
    (forall t, find (has_id id) (todos st) = Some t ->
               find (has_id id) (todos st1) = Some (set_completed (negb (completed t)) t)) /\
    todos st2 = todos st /\
    saves st2 = saves st ++ [todos st1; todos st].
Proof.
  intros id st Hin st1 st2.
  destruct (find_has_id_in id (todos st) Hin) as [t Ht].
  assert (H1 : st1 = save st (update_first (has_id id) flip (todos st)))
    by (unfold st1, toggle; rewrite Ht; reflexivity).
  assert (Hf1 : find (has_id id) (todos st1) = Some (flip t)).
  { rewrite H1; simpl; rewrite find_update_first, Ht; [reflexivity|].
    intros x; apply has_id_set_completed. }
  assert (H2 : st2 = save st1 (todos st)).
  { unfold st2, toggle; rewrite Hf1; f_equal.
    rewrite H1; simpl; apply update_first_flip_twice. }
  split; [|split].
  - intros t' Ht'; rewrite Ht in Ht'; injection Ht' as <-; exact Hf1.
  - rewrite H2; reflexivity.
  - rewrite H2, H1; simpl; rewrite <- app_assoc; reflexivity.
Qed.

Definition two_tasks : todo_state :=
  mkTodoState [rent_task; mkTodo (js "todo_2") (js "Call mom") true 5 None (js "high") [] []] [].

Lemma toggle_twice_witness :
  In (js "todo_2") (map todo_id (todos two_tasks)) /\
  todos (toggle (js "todo_2") (toggle (js "todo_2") two_tasks)) = todos two_tasks.
Proof.
  assert (H : In (js "todo_2") (map todo_id (todos two_tasks))) by (simpl; auto).
  split; [exact H|].
  exact (proj1 (proj2 (toggle_twice (js "todo_2") two_tasks H))).
Defined.

(** C5: text that is empty or only whitespace makes [add], [update] and
    [addSubtask] return before touching the collection or the storage. *)
Theorem blank_text_noop :
  forall s, forallb is_ws s = true ->
  forall id now opts todoId subId st,
    add id now s opts st = st /\
    update todoId s st = st /\
    addSubtask todoId subId s st = st.
Proof.
  intros s Hs id now opts todoId subId st.
  unfold add, update, addSubtask; rewrite (trim_all_ws s Hs); repeat split.
Qed.

Lemma blank_text_noop_witness :
  forallb is_ws [32; 9; 160; 12288; 10] = true /\
  add (js "todo_3") 7 [32; 9; 160; 12288; 10] no_opts two_tasks = two_tasks.
Proof.
  assert (H : forallb is_ws [32; 9; 160; 12288; 10] = true) by reflexivity.
  split; [exact H|].
  exact (proj1 (blank_text_noop _ H (js "todo_3") 7 no_opts (js "todo_1") (js "sub_1") two_tasks)).
Defined.

Definition urgent_opts : add_opts := mkOpts None (Some (js "urgent")) None.

(** C4 (counterexample): [add] with [priority: 'urgent'] stores a task whose
    priority is none of low, medium, high. *)
Lemma add_keeps_unknown_priority :
  map priority (todos (add (js "todo_1") 0 (js "Ship it") urgent_opts (mkTodoState [] [])))
  = [js "urgent"] /\
  ~ In (js "urgent") [js "low"; js "medium"; js "high"].
Proof.
  split; [vm_compute; reflexivity|].
  simpl; intros [H|[H|[H|[]]]]; discriminate.
Qed.

(** C4 (amended): the new task's priority is [opts.priority] whenever it is a
    non-empty string, whatever string it is, and ['medium'] when it is
    missing or empty; the tasks already there are untouched. *)
Theorem add_priority :
  forall id now s opts st,
    truthy (trim s) = true ->
    exists t,
      todos (add id now s opts st) = t :: todos st /\
      priority t = match opt_priority opts with
                   | Some p => if truthy p then p else js "medium"
                   | None => js "medium"
                   end.
Proof.
  intros id now s opts st Hs; unfold add; rewrite Hs; simpl.
  eexists; split; reflexivity.
Qed.

Lemma add_priority_witness :
  truthy (trim (js "Ship it")) = true /\
  exists t, todos (add (js "todo_1") 0 (js "Ship it") urgent_opts (mkTodoState [] [])) = [t]
            /\ priority t = js "urgent".
Proof.
  assert (H : truthy (trim (js "Ship it")) = true) by (vm_compute; reflexivity).
  split; [exact H|].
  destruct (add_priority (js "todo_1") 0 (js "Ship it") urgent_opts (mkTodoState [] []) H)
    as [t [Ht Hp]].
  exists t; split; [exact Ht | rewrite Hp; reflexivity].
Defined.

(** ** Persistence: the migration in [load()] *)

Lemma jseqb_spec (a b : jsstr) : reflect (a = b) (jseqb a b).
Proof. apply iff_reflect; symmetry; apply jseqb_eq. Qed.

Lemma get_set_prop ps k v k' :
  get_prop (set_prop ps k v) k' = if jseqb k k' then Some v else get_prop ps k'.
Proof.
  induction ps as [|[k0 v0] r IH]; simpl; [reflexivity|].
  destruct (jseqb_spec k0 k) as [->|Hne]; simpl.
  - destruct (jseqb k k'); reflexivity.
  - rewrite IH; destruct (jseqb_spec k0 k') as [->|Hne']; [|reflexivity].
    destruct (jseqb_spec k k'); [congruence | reflexivity].
Qed.

Lemma get_prop_none_notin ps k : ~ In k (map fst ps) -> get_prop ps k = None.
Proof.
  induction ps as [|[k0 v0] r IH]; simpl; [reflexivity|].
  intros Hn; destruct (jseqb_spec k0 k); [tauto|]; auto.
Qed.

Lemma get_prop_fold_set ps acc k :
  NoDup (map fst ps) ->
  get_prop (fold_left (fun acc kv => set_prop acc (fst kv) (snd kv)) ps acc) k
  = match get_prop ps k with Some v => Some v | None => get_prop acc k end.
Proof.
  revert acc; induction ps as [|[k0 v0] r IH]; intros acc Hnd; simpl; [reflexivity|].
  inversion Hnd as [|? ? Hnin Hnd']; subst.
  rewrite IH by exact Hnd'; rewrite get_set_prop.
  destruct (jseqb_spec k0 k) as [->|Hne].
  - rewrite get_prop_none_notin by exact Hnin; reflexivity.
  - destruct (get_prop r k); reflexivity.
Qed.

Definition json_props (v : json) : list (jsstr * json) :=
  match v with JObj ps => ps | _ => [] end.

(** C8: when the stored value is an array, [load()] replaces each stored
    record by its migration, in which a key the record has keeps its stored
    value and [deadline], [priority], [subtasks], [categories] default to
    [null], ['medium'], [[]], [[]]; the storage is left as it was. *)
Theorem load_migrates :
  forall JSON_parse st raw,
    storage_get JSON_parse (local_storage st) STORAGE_KEY (JArr []) = JArr raw ->
    exists st',
      load JSON_parse st = Some st' /\
      local_storage st' = local_storage st /\
      mem_todos st' = map migrate raw /\
      forall ps k, NoDup (map fst ps) ->
        get_prop (json_props (migrate (JObj ps))) k
        = match get_prop ps k with Some v => Some v | None => get_prop migration_defaults k end.
Proof.
  intros JSON_parse st raw Hg.
  exists (mkAppState (map migrate raw) (local_storage st)).
  split; [unfold load; rewrite Hg; reflexivity|].
  split; [reflexivity|]; split; [reflexivity|].
  intros ps k Hnd; simpl; unfold spread; simpl own_props.
  apply get_prop_fold_set, Hnd.
Qed.

Definition old_record : list (jsstr * json) :=
  [(js "id", JStr (js "todo_1")); (js "text", JStr (js "Old task"));
   (js "completed", JBool false); (js "createdAt", JNum 1700000000000)].

Definition stored_text : jsstr := js "[{old task}]".

(** A [JSON.parse] that knows the one stored string. *)
Definition sample_JSON_parse (raw : jsstr) : option json :=
  if jseqb raw stored_text then Some (JArr [JObj old_record]) else None.

Definition old_storage : app_state := mkAppState [] [(STORAGE_KEY, stored_text)].

Lemma load_migrates_witness :
  storage_get sample_JSON_parse (local_storage old_storage) STORAGE_KEY (JArr [])
  = JArr [JObj old_record] /\
  NoDup (map fst old_record) /\
  get_prop (json_props (migrate (JObj old_record))) (js "priority") = Some (JStr (js "medium")) /\
  get_prop (json_props (migrate (JObj old_record))) (js "text") = Some (JStr (js "Old task")).
Proof.
  assert (Hg : storage_get sample_JSON_parse (local_storage old_storage) STORAGE_KEY (JArr [])
               = JArr [JObj old_record]) by (vm_compute; reflexivity).
  assert (Hnd : NoDup (map fst old_record)).
  { repeat constructor; simpl; intros H; repeat destruct H as [H|H];
      try discriminate; try contradiction. }
  destruct (load_migrates sample_JSON_parse old_storage _ Hg) as [st' [_ [_ [_ Hk]]]].
  split; [exact Hg|]; split; [exact Hnd|]; split.
  - rewrite (Hk old_record (js "priority") Hnd); vm_compute; reflexivity.
  - rewrite (Hk old_record (js "text") Hnd); vm_compute; reflexivity.
Defined.

(** ** HTML escaping *)

Lemma replace_all_unit_app c rep a b :
  replace_all_unit c rep (a ++ b) = replace_all_unit c rep a ++ replace_all_unit c rep b.
Proof. unfold replace_all_unit; apply flat_map_app. Qed.

Lemma escHtml_app a b : escHtml (a ++ b) = escHtml a ++ escHtml b.
Proof. unfold escHtml; rewrite !replace_all_unit_app; reflexivity. Qed.

Lemma escHtml_one x :
  escHtml [x] =
  if x =? 38 then js "&amp;" else if x =? 60 then js "&lt;" else if x =? 62 then js "&gt;"
  else if x =? 34 then js "&quot;" else if x =? 39 then js "&#39;" else [x].
Proof.
  unfold escHtml, replace_all_unit; simpl.
  destruct (x =? 38) eqn:E1; [apply Z.eqb_eq in E1; subst; reflexivity|]; simpl.
  destruct (x =? 60) eqn:E2; [apply Z.eqb_eq in E2; subst; reflexivity|]; simpl.
  destruct (x =? 62) eqn:E3; [apply Z.eqb_eq in E3; subst; reflexivity|]; simpl.
  destruct (x =? 34) eqn:E4; [apply Z.eqb_eq in E4; subst; reflexivity|]; simpl.
  destruct (x =? 39) eqn:E5; [apply Z.eqb_eq in E5; subst; reflexivity|]; simpl.
  reflexivity.
Qed.

Definition html_special (c : Z) : bool := existsb (Z.eqb c) [60; 62; 34; 39].

Lemma escHtml_one_safe x : forallb (fun c => negb (html_special c)) (escHtml [x]) = true.
Proof.
  rewrite escHtml_one.
  destruct (x =? 38) eqn:E1; [reflexivity|]; destruct (x =? 60) eqn:E2; [reflexivity|];
  destruct (x =? 62) eqn:E3; [reflexivity|]; destruct (x =? 34) eqn:E4; [reflexivity|];
  destruct (x =? 39) eqn:E5; [reflexivity|].
  unfold html_special; simpl; rewrite E2, E3, E4, E5; reflexivity.
Qed.

Lemma html_unescape_esc_one x e : html_unescape (escHtml [x] ++ e) = x :: html_unescape e.
Proof.
  rewrite escHtml_one.
  destruct (x =? 38) eqn:E1; [apply Z.eqb_eq in E1; subst; reflexivity|].
  destruct (x =? 60) eqn:E2; [apply Z.eqb_eq in E2; subst; reflexivity|].
  destruct (x =? 62) eqn:E3; [apply Z.eqb_eq in E3; subst; reflexivity|].
  destruct (x =? 34) eqn:E4; [apply Z.eqb_eq in E4; subst; reflexivity|].
  destruct (x =? 39) eqn:E5; [apply Z.eqb_eq in E5; subst; reflexivity|].
  simpl; rewrite E1; reflexivity.
Qed.

(** [escHtml] output contains no less-than, greater-than, double-quote or
    single-quote character, and decoding its five character references gives
    back the input, so distinct strings stay distinct once escaped. *)
Theorem escHtml_safe_and_reversible :
  forall s, forallb (fun c => negb (html_special c)) (escHtml s) = true /\
            html_unescape (escHtml s) = s.
Proof.
  induction s as [|x r [IHs IHr]]; [split; reflexivity|].
  change (x :: r) with ([x] ++ r); rewrite escHtml_app, forallb_app, IHs, escHtml_one_safe.
  split; [reflexivity|].
  rewrite html_unescape_esc_one, IHr; reflexivity.
Qed.

(** ** [trim] *)

Definition nonws (c : Z) : bool := negb (is_ws c).

Definition head_not_ws (s : jsstr) : Prop :=
  match s with c :: _ => is_ws c = false | [] => True end.

Lemma trim_start_split s :
  exists p, s = p ++ trim_start s /\ forallb is_ws p = true.
Proof.
  induction s as [|c r [p [Hp Hw]]]; [exists []; auto|].
  simpl; destruct (is_ws c) eqn:Hc.
  - exists (c :: p); simpl; rewrite Hc, Hw; split; [rewrite <- Hp|]; reflexivity.
  - exists []; auto.
Qed.

Lemma trim_start_head s : head_not_ws (trim_start s).
Proof.
  induction s as [|c r IH]; simpl; [exact I|].
  destruct (is_ws c) eqn:Hc; [exact IH | exact Hc].
Qed.

Lemma trim_start_id s : head_not_ws s -> trim_start s = s.
Proof. destruct s as [|c r]; simpl; [auto|intros H; rewrite H; reflexivity]. Qed.

Lemma trim_idem s : trim (trim s) = trim s.
Proof.
  unfold trim.
  set (v := trim_start s); set (w := trim_start (rev v)).
  assert (Hv : head_not_ws v) by apply trim_start_head.
  assert (Hw : head_not_ws w) by apply trim_start_head.
  destruct (trim_start_split (rev v)) as [p [Hp _]]; fold w in Hp.
  assert (Hrw : head_not_ws (rev w)).
  { assert (E : v = rev w ++ rev p) by (rewrite <- rev_app_distr, <- Hp, rev_involutive; reflexivity).
    destruct (rev w) as [|c r] eqn:Er; [exact I|].
    rewrite E in Hv; exact Hv. }
  rewrite (trim_start_id (rev w) Hrw), rev_involutive, (trim_start_id w Hw); reflexivity.
Qed.

Lemma existsb_rev {A} (f : A -> bool) l : existsb f (rev l) = existsb f l.
Proof.
  apply eq_true_iff_eq; rewrite !existsb_exists; split; intros [x [Hx Hf]]; exists x;
    (split; [apply in_rev in Hx || apply in_rev; rewrite ?rev_involutive in Hx; exact Hx | exact Hf]).
Qed.

Lemma trim_start_keeps_nonws s : existsb nonws s = true -> existsb nonws (trim_start s) = true.
Proof.
  destruct (trim_start_split s) as [p [Hp Hw]].
  rewrite Hp at 1; rewrite existsb_app.
  assert (Hn : existsb nonws p = false).
  { apply not_true_iff_false; intros He; apply existsb_exists in He as [x [Hx Hx']].
    apply (proj1 (forallb_forall _ _) Hw) in Hx; unfold nonws in Hx'; rewrite Hx in Hx'; discriminate. }
  rewrite Hn; exact (fun H => H).
Qed.

Lemma trim_nonblank s : existsb nonws s = true -> truthy (trim s) = true.
Proof.
  intros H; unfold trim.
  apply trim_start_keeps_nonws in H; rewrite <- existsb_rev in H.
  apply trim_start_keeps_nonws in H; rewrite <- existsb_rev in H.
  destruct (rev (trim_start (rev (trim_start s)))); [discriminate | reflexivity].
Qed.

(** ** Task Store: [add] *)

(** [add] with text that is not blank prepends one task holding the trimmed
    text (which has no surrounding whitespace), not completed, created at
    [now], with no subtasks, and writes the collection once. *)
Theorem add_prepends_trimmed :
  forall id now s opts st,
    truthy (trim s) = true ->
    let st' := add id now s opts st in
    exists t,
      todos st' = t :: todos st /\ todo_id t = id /\ text t = trim s /\
      trim (text t) = text t /\ completed t = false /\ createdAt t = now /\
      subtasks t = [] /\ saves st' = saves st ++ [todos st'].
Proof.
  intros id now s opts st Hs st'; unfold st', add; rewrite Hs; simpl.
  eexists; repeat split; apply trim_idem.
Qed.

Lemma add_prepends_trimmed_witness :
  truthy (trim (js "  Buy milk ")) = true /\
  map text (todos (add (js "todo_9") 3 (js "  Buy milk ") no_opts two_tasks))
  = [js "Buy milk"; js "Pay rent"; js "Call mom"].
Proof.
  assert (H : truthy (trim (js "  Buy milk ")) = true) by (vm_compute; reflexivity).
  split; [exact H|].
  destruct (add_prepends_trimmed (js "todo_9") 3 (js "  Buy milk ") no_opts two_tasks H)
    as [t [Ht [_ [Htx _]]]].
  rewrite Ht; simpl; rewrite Htx; vm_compute; reflexivity.
Defined.

(** ** Link Store: the voice handler *)

Lemma in_skipn {A} (x : A) n l : In x (skipn n l) -> In x l.
Proof. intros H; rewrite <- (firstn_skipn n l); apply in_or_app; right; exact H. Qed.

Lemma ci_eq_dot c : ci_eq c 46 = true -> c = 46.
Proof.
  unfold ci_eq, upper_ascii, in_range; simpl.
  destruct ((97 <=? c) && (c <=? 122)) eqn:E; intros H; apply Z.eqb_eq in H; [|exact H].
  apply andb_true_iff in E as [E1 E2]; apply Z.leb_le in E1; lia.
Qed.

Lemma looksLikeUrl_has_dot s : looksLikeUrl s = true -> In 46 s.
Proof.
  unfold looksLikeUrl; intros H; apply existsb_exists in H as [i [_ Hi]].
  unfold tld_match_at in Hi; apply andb_true_iff in Hi as [_ Hi].
  apply existsb_exists in Hi as [n [_ Hn]].
  apply andb_true_iff in Hn as [Hn _]; apply andb_true_iff in Hn as [_ Hd].
  destruct (skipn (i + n) s) as [|c r] eqn:E; [discriminate|].
  simpl in Hd; apply andb_true_iff in Hd as [Hd _]; apply ci_eq_dot in Hd; subst c.
  apply (in_skipn _ (i + n)); rewrite E; left; reflexivity.
Qed.

Lemma replace_dot_cons3 a b c r :
  replace_dot (a :: b :: c :: r)
  = if ci_eq a 100 && ci_eq b 111 && ci_eq c 116 then 46 :: replace_dot r
    else a :: replace_dot (b :: c :: r).
Proof. reflexivity. Qed.

Lemma replace_dot_nonws_nonempty s :
  forallb nonws s = true -> s <> [] ->
  forallb nonws (replace_dot s) = true /\ replace_dot s <> [].
Proof.
  remember (List.length s) as n eqn:Hn; revert s Hn.
  induction n as [n IH] using (well_founded_induction lt_wf); intros s Hn Hall Hne.
  destruct s as [|a [|b [|c r]]]; [contradiction| split; [exact Hall | discriminate]
                                 | split; [exact Hall | discriminate] |].
  rewrite replace_dot_cons3.
  cbn [forallb] in Hall; apply andb_true_iff in Hall as [Ha Hall].
  destruct (ci_eq a 100 && ci_eq b 111 && ci_eq c 116).
  - apply andb_true_iff in Hall as [_ Hall]; apply andb_true_iff in Hall as [_ Hr].
    split; [|discriminate]; cbn [forallb]; apply andb_true_iff; split; [reflexivity|].
    destruct r as [|x r']; [reflexivity|].
    apply (IH (List.length (x :: r'))); [simpl in Hn |- *; lia | reflexivity | exact Hr | discriminate].
  - split; [|discriminate]; cbn [forallb]; rewrite Ha; cbn [andb].
    apply (IH (List.length (b :: c :: r))); [simpl in Hn |- *; lia | reflexivity | exact Hall | discriminate].
Qed.

Lemma links_add_one new_URL id now raw st :
  truthy (trim raw) = true ->
  exists l, links (links_add new_URL id now raw st) = l :: links st /\
            link_saves (links_add new_URL id now raw st)
            = link_saves st ++ [links (links_add new_URL id now raw st)].
Proof. intros H; rewrite (links_add_nonblank new_URL id now raw st H); eexists; split; reflexivity. Qed.

(** For every transcript that [encodeURIComponent] accepts (no lone
    surrogate), the link voice handler adds exactly one link in front of the
    others and writes the list once, whatever [new URL] accepts. *)
Theorem onResult_adds_one_link :
  forall new_URL id now transcript st,
    encodeURIComponent transcript <> None ->
    exists st' l,
      onResult new_URL id now transcript st = Some st' /\
      links st' = l :: links st /\ link_saves st' = link_saves st ++ [links st'].
Proof.
  intros new_URL id now transcript st He.
  destruct (encodeURIComponent transcript) as [q|] eqn:Eq; [|contradiction].
  assert (Hg : truthy (trim (google_search q)) = true)
    by (apply trim_nonblank; reflexivity).
  unfold onResult; rewrite Eq; cbn [option_map].
  destruct (looksLikeUrl transcript) eqn:Hl;
    [destruct (new_URL _) eqn:Hu|];
    try (destruct (links_add_one new_URL id now (google_search q) st Hg) as [l [H1 H2]];
         eexists; exists l; split; [reflexivity | split; assumption]).
  set (cleaned := replace_dot (strip_ws transcript)).
  assert (Hc : truthy (trim cleaned) = true).
  { apply trim_nonblank.
    assert (Hin : In 46 (strip_ws transcript))
      by (apply filter_In; split; [apply looksLikeUrl_has_dot, Hl | reflexivity]).
    assert (Hall : forallb nonws (strip_ws transcript) = true)
      by (apply forallb_forall; intros x Hx; apply filter_In in Hx as [_ Hx]; exact Hx).
    destruct (replace_dot_nonws_nonempty _ Hall) as [Hall' Hne'];
      [intros E; rewrite E in Hin; contradiction|].
    fold cleaned in Hall', Hne'.
    destruct cleaned as [|x r]; [contradiction|].
    simpl in Hall' |- *; apply andb_true_iff in Hall' as [Hx _]; rewrite Hx; reflexivity. }
  destruct (links_add_one new_URL id now cleaned st Hc) as [l [H1 H2]].
  eexists; exists l; split; [reflexivity | split; assumption].
Qed.

Lemma onResult_adds_one_link_witness :
  encodeURIComponent (js "example dot com") <> None /\
  exists st', onResult new_URL_subset (js "link_1") 0 (js "example dot com") no_links = Some st'
              /\ List.length (links st') = 1%nat.
Proof.
  assert (H : encodeURIComponent (js "example dot com") <> None) by (vm_compute; discriminate).
  split; [exact H|].
  destruct (onResult_adds_one_link new_URL_subset (js "link_1") 0 (js "example dot com")
              no_links H) as [st' [l [Ho [Hl _]]]].
  exists st'; split; [exact Ho | rewrite Hl; reflexivity].
Defined.

(** A transcript without a literal [.] is never taken for a URL: the voice
    handler saves the Google search for the encoded transcript. *)
Theorem onResult_without_dot_searches :
  forall new_URL id now transcript q st,
    ~ In 46 transcript ->
    encodeURIComponent transcript = Some q ->
    onResult new_URL id now transcript st = Some (links_add new_URL id now (google_search q) st).
Proof.
  intros new_URL id now transcript q st Hn He.
  assert (Hl : looksLikeUrl transcript = false).
  { destruct (looksLikeUrl transcript) eqn:E; [|reflexivity].
    exfalso; apply Hn, looksLikeUrl_has_dot, E. }
  unfold onResult; rewrite Hl, He; reflexivity.
Qed.

Lemma onResult_without_dot_searches_witness :
  ~ In 46 (js "buy milk") /\
  encodeURIComponent (js "buy milk") = Some (js "buy%20milk") /\
  onResult new_URL_subset (js "link_1") 0 (js "buy milk") no_links
  = Some (links_add new_URL_subset (js "link_1") 0 (js "https://www.google.com/search?q=buy%20milk")
            no_links).
Proof.
  assert (H1 : ~ In 46 (js "buy milk")) by (simpl; intuition discriminate).
  assert (H2 : encodeURIComponent (js "buy milk") = Some (js "buy%20milk")) by reflexivity.
  split; [exact H1|]; split; [exact H2|].
  exact (onResult_without_dot_searches new_URL_subset (js "link_1") 0 _ _ no_links H1 H2).
Defined.

(** ** Task Store: removal and subtasks *)

Lemma update_first_compose {A} (p : A -> bool) (f g : A -> A) (l : list A) :
  (forall x, p (g x) = p x) ->
  update_first p f (update_first p g l) = update_first p (fun x => f (g x)) l.
Proof.
  intros Hg; induction l as [|x r IH]; cbn [update_first]; [reflexivity|].
  destruct (p x) eqn:Hx; cbn [update_first]; [rewrite Hg, Hx; reflexivity | rewrite Hx, IH; reflexivity].
Qed.

Lemma update_first_found_id {A} (p : A -> bool) (f : A -> A) (l : list A) t :
  find p l = Some t -> f t = t -> update_first p f l = l.
Proof.
  intros Hfind Ht; induction l as [|x r IH]; cbn [update_first find] in *; [discriminate|].
  destruct (p x); [injection Hfind as ->; rewrite Ht; reflexivity | rewrite IH; auto].
Qed.

Lemma update_first_invol {A} (p : A -> bool) (f : A -> A) (l : list A) :
  (forall x, p (f x) = p x) -> (forall x, f (f x) = x) ->
  update_first p f (update_first p f l) = l.
Proof.
  intros Hp Hf; rewrite update_first_compose by exact Hp.
  induction l as [|x r IH]; cbn [update_first]; [reflexivity|].
  destruct (p x); [rewrite Hf; reflexivity | rewrite IH; reflexivity].
Qed.

Lemma filter_negb_absent {A} (p : A -> bool) (l : list A) :
  (forall x, In x l -> p x = false) -> filter (fun x => negb (p x)) l = l.
Proof.
  induction l as [|x r IH]; intros H; simpl; [reflexivity|].
  rewrite (H x (or_introl eq_refl)), IH; [reflexivity|]; intros y Hy; apply H; right; exact Hy.
Qed.

Lemma jseqb_refl (a : jsstr) : jseqb a a = true.
Proof. apply jseqb_eq; reflexivity. Qed.

Lemma jseqb_absent {A} (g : A -> jsstr) (l : list A) id :
  ~ In id (map g l) -> forall x, In x l -> jseqb (g x) id = false.
Proof.
  intros Hn x Hx; destruct (jseqb_spec (g x) id) as [E|]; [|reflexivity].
  exfalso; apply Hn; rewrite <- E; apply in_map, Hx.
Qed.

Lemma set_subtasks_same t : set_subtasks (subtasks t) t = t.
Proof. destruct t; reflexivity. Qed.

Lemma set_description_same l : set_description (description l) l = l.
Proof. destruct l; reflexivity. Qed.

(** [add] followed by [remove] of the new task's id gives the collection
    back, when no task had that id before; each call writes once. *)
Theorem remove_after_add :
  forall id now text0 opts st,
    truthy (trim text0) = true ->
    ~ In id (map todo_id (todos st)) ->
    let st1 := add id now text0 opts st in
    let st2 := remove id st1 in
    todos st2 = todos st /\ saves st2 = saves st ++ [todos st1; todos st].
Proof.
  intros id now text0 opts st Ht Hn st1 st2.
  assert (H1 : exists t, todo_id t = id /\ st1 = save st (t :: todos st)).
  { unfold st1, add; rewrite Ht; cbn [negb]; eexists; split; [|reflexivity]; reflexivity. }
  destruct H1 as [t [Hid H1]].
  assert (H2 : todos st2 = todos st).
  { unfold st2, remove; rewrite H1; cbn [todos save filter].
    unfold has_id at 1; rewrite Hid, jseqb_refl; cbn [negb].
    apply filter_negb_absent, (jseqb_absent todo_id), Hn. }
  split; [exact H2|].
  rewrite <- H2; unfold st2, remove; rewrite H1; cbn [saves save]; rewrite <- app_assoc; reflexivity.
Qed.

Lemma remove_after_add_witness :
  truthy (trim (js "Water plants")) = true /\ ~ In (js "todo_3") (map todo_id (todos two_tasks)) /\
  todos (remove (js "todo_3") (add (js "todo_3") 9 (js "Water plants") no_opts two_tasks))
  = todos two_tasks.
Proof.
  assert (H1 : truthy (trim (js "Water plants")) = true) by reflexivity.
  assert (H2 : ~ In (js "todo_3") (map todo_id (todos two_tasks)))
    by (simpl; intuition discriminate).
  split; [exact H1|]; split; [exact H2|].
  exact (proj1 (remove_after_add (js "todo_3") 9 _ no_opts two_tasks H1 H2)).
Defined.

(** [addSubtask] appends the new subtask, not completed and with the trimmed
    text, to the end of the found task's subtasks; it changes no other task
    and writes the collection once. *)
Theorem addSubtask_appends :
  forall todoId subId text0 st t,
    truthy (trim text0) = true ->
    find (has_id todoId) (todos st) = Some t ->
    let st' := addSubtask todoId subId text0 st in
    find (has_id todoId) (todos st')
      = Some (set_subtasks (subtasks t ++ [mkSubtask subId (trim text0) false]) t) /\
    (forall u, In u (todos st) -> todo_id u <> todoId -> In u (todos st')) /\
    List.length (todos st') = List.length (todos st) /\
    saves st' = saves st ++ [todos st'].
Proof.
  intros todoId subId text0 st t Ht Hf st'.
  set (g := fun t0 => set_subtasks (subtasks t0 ++ [mkSubtask subId (trim text0) false]) t0).
  assert (H1 : st' = save st (update_first (has_id todoId) g (todos st)))
    by (unfold st', addSubtask; rewrite Ht, Hf; reflexivity).
  rewrite H1; cbn [todos saves save].
  split; [|split; [|split]].
  - rewrite find_update_first, Hf; reflexivity.
  - intros u Hu Hne; clear Hf H1; induction (todos st) as [|x r IH]; [contradiction|].
    cbn [update_first]; destruct (has_id todoId x) eqn:Hx.
    + destruct Hu as [<-|Hu]; [|right; exact Hu].
      exfalso; apply Hne; apply jseqb_eq, Hx.
    + destruct Hu as [<-|Hu]; [left; reflexivity | right; apply IH, Hu].
  - clear Hf H1; induction (todos st) as [|x r IH]; cbn [update_first]; [reflexivity|].
    destruct (has_id todoId x); simpl; [reflexivity | rewrite IH; reflexivity].
  - reflexivity.
Qed.

Lemma addSubtask_appends_witness :
  truthy (trim (js " Bank transfer")) = true /\
  find (has_id (js "todo_1")) (todos two_tasks) = Some rent_task /\
  subtasks (rent_task) = [] /\
  find (has_id (js "todo_1")) (todos (addSubtask (js "todo_1") (js "sub_1") (js " Bank transfer") two_tasks))
  = Some (set_subtasks [mkSubtask (js "sub_1") (js "Bank transfer") false] rent_task).
Proof.
  assert (H1 : truthy (trim (js " Bank transfer")) = true) by reflexivity.
  assert (H2 : find (has_id (js "todo_1")) (todos two_tasks) = Some rent_task) by reflexivity.
  split; [exact H1|]; split; [exact H2|]; split; [reflexivity|].
  exact (proj1 (addSubtask_appends (js "todo_1") (js "sub_1") _ two_tasks rent_task H1 H2)).
Defined.

(** [removeSubtask] with a fresh subtask id undoes [addSubtask]: the
    collection is back to what it was. *)
Theorem removeSubtask_after_addSubtask :
  forall todoId subId text0 st t,
    truthy (trim text0) = true ->
    find (has_id todoId) (todos st) = Some t ->
    ~ In subId (map sub_id (subtasks t)) ->
    todos (removeSubtask todoId subId (addSubtask todoId subId text0 st)) = todos st.
Proof.
  intros todoId subId text0 st t Ht Hf Hn.
  set (g := fun t0 => set_subtasks (subtasks t0 ++ [mkSubtask subId (trim text0) false]) t0).
  set (f := fun t0 => set_subtasks (filter (fun s => negb (has_sub_id subId s)) (subtasks t0)) t0).
  assert (H1 : addSubtask todoId subId text0 st = save st (update_first (has_id todoId) g (todos st)))
    by (unfold addSubtask; rewrite Ht, Hf; reflexivity).
  assert (Hp : forall x, has_id todoId (g x) = has_id todoId x) by reflexivity.
  rewrite H1; unfold removeSubtask; cbn [todos save].
  rewrite find_update_first, Hf by exact Hp; cbn [option_map todos save].
  fold f; rewrite update_first_compose by exact Hp.
  apply (update_first_found_id _ _ _ t Hf).
  unfold f, g; cbn [subtasks set_subtasks]; rewrite filter_app.
  unfold has_sub_id at 2; cbn [filter sub_id]; rewrite jseqb_refl; cbn [negb].
  rewrite app_nil_r, (filter_negb_absent (has_sub_id subId)).
  - destruct t; reflexivity.
  - exact (jseqb_absent sub_id (subtasks t) subId Hn).
Qed.

Lemma removeSubtask_after_addSubtask_witness :
  truthy (trim (js "Bank transfer")) = true /\
  find (has_id (js "todo_1")) (todos two_tasks) = Some rent_task /\
  ~ In (js "sub_1") (map sub_id (subtasks rent_task)) /\
  todos (removeSubtask (js "todo_1") (js "sub_1")
           (addSubtask (js "todo_1") (js "sub_1") (js "Bank transfer") two_tasks)) = todos two_tasks.
Proof.
  assert (H1 : truthy (trim (js "Bank transfer")) = true) by reflexivity.
  assert (H2 : find (has_id (js "todo_1")) (todos two_tasks) = Some rent_task) by reflexivity.
  assert (H3 : ~ In (js "sub_1") (map sub_id (subtasks rent_task))) by (simpl; tauto).
  split; [exact H1|]; split; [exact H2|]; split; [exact H3|].
  exact (removeSubtask_after_addSubtask _ _ _ two_tasks rent_task H1 H2 H3).
Defined.

(** Two [toggleSubtask] calls with the same ids give the collection back,
    whether or not the task and the subtask exist. *)
Theorem toggleSubtask_twice :
  forall todoId subId st,
    todos (toggleSubtask todoId subId (toggleSubtask todoId subId st)) = todos st.
Proof.
  intros todoId subId st.
  set (F := fun t => set_subtasks (update_first (has_sub_id subId) flip_sub (subtasks t)) t).
  assert (Hp : forall x, has_id todoId (F x) = has_id todoId x) by reflexivity.
  assert (Hq : forall s, has_sub_id subId (flip_sub s) = has_sub_id subId s) by reflexivity.
  destruct (find (has_id todoId) (todos st)) as [t|] eqn:Hf.
  2:{ assert (E : toggleSubtask todoId subId st = st) by (unfold toggleSubtask; rewrite Hf; reflexivity).
       rewrite !E; reflexivity. }
  destruct (find (has_sub_id subId) (subtasks t)) as [s|] eqn:Hs.
  2:{ assert (E : toggleSubtask todoId subId st = st) by (unfold toggleSubtask; rewrite Hf, Hs; reflexivity).
       rewrite !E; reflexivity. }
  assert (H1 : toggleSubtask todoId subId st = save st (update_first (has_id todoId) F (todos st)))
    by (unfold toggleSubtask; rewrite Hf, Hs; reflexivity).
  remember (toggleSubtask todoId subId st) as st1 eqn:E1.
  assert (Hf1 : find (has_id todoId) (todos st1) = Some (F t))
    by (rewrite H1; cbn [todos save]; rewrite find_update_first, Hf; [reflexivity | exact Hp]).
  assert (Hs1 : find (has_sub_id subId) (subtasks (F t)) = Some (flip_sub s))
    by (unfold F; cbn [subtasks set_subtasks]; rewrite find_update_first, Hs; [reflexivity | exact Hq]).
  assert (H2 : toggleSubtask todoId subId st1 = save st1 (update_first (has_id todoId) F (todos st1)))
    by (unfold toggleSubtask; rewrite Hf1, Hs1; reflexivity).
  rewrite H2, H1; cbn [todos save].
  apply update_first_invol; [exact Hp|].
  intros x; unfold F; cbn [subtasks set_subtasks].
  rewrite update_first_invol by (exact Hq || (intros [a b c]; unfold flip_sub; simpl; rewrite negb_involutive; reflexivity)).
  destruct x; reflexivity.
Qed.

(** [removeSubtask] on an existing task with an unknown subtask id leaves the
    collection as it is, but still writes it to storage. *)
Theorem removeSubtask_unknown_sub_writes :
  forall todoId subId st t,
    find (has_id todoId) (todos st) = Some t ->
    ~ In subId (map sub_id (subtasks t)) ->
    let st' := removeSubtask todoId subId st in
    todos st' = todos st /\ saves st' = saves st ++ [todos st].
Proof.
  intros todoId subId st t Hf Hn st'.
  assert (H : todos st' = todos st).
  { unfold st', removeSubtask; rewrite Hf; cbn [todos save].
    apply (update_first_found_id _ _ _ t Hf); cbn beta.
    rewrite (filter_negb_absent (has_sub_id subId)); [apply set_subtasks_same|].
    exact (jseqb_absent sub_id (subtasks t) subId Hn). }
  split; [exact H|].
  rewrite <- H; unfold st', removeSubtask; rewrite Hf; reflexivity.
Qed.

Lemma removeSubtask_unknown_sub_writes_witness :
  find (has_id (js "todo_1")) (todos two_tasks) = Some rent_task /\
  ~ In (js "sub_9") (map sub_id (subtasks rent_task)) /\
  saves (removeSubtask (js "todo_1") (js "sub_9") two_tasks) = [todos two_tasks].
Proof.
  assert (H1 : find (has_id (js "todo_1")) (todos two_tasks) = Some rent_task) by reflexivity.
  assert (H2 : ~ In (js "sub_9") (map sub_id (subtasks rent_task))) by (simpl; tauto).
  split; [exact H1|]; split; [exact H2|].
  exact (proj2 (removeSubtask_unknown_sub_writes _ _ two_tasks rent_task H1 H2)).
Defined.

(** Editing a task twice with the same text leaves the same collection as
    editing it once. *)
Theorem update_twice_same :
  forall id newText st,
    todos (update id newText (update id newText st)) = todos (update id newText st).
Proof.
  intros id newText st; unfold update at 2.
  destruct (truthy (trim newText)) eqn:Ht; cbn [negb].
  2:{ unfold update; rewrite Ht; reflexivity. }
  destruct (find (has_id id) (todos st)) as [t|] eqn:Hf.
  2:{ unfold update; rewrite Ht, Hf; reflexivity. }
  assert (Hp : forall x, has_id id (set_text (trim newText) x) = has_id id x) by reflexivity.
  unfold update; rewrite Ht; cbn [negb todos save].
  rewrite find_update_first, Hf by exact Hp; cbn [option_map todos save].
  rewrite update_first_compose by exact Hp.
  clear Hf; induction (todos st) as [|x r IH]; cbn [update_first]; [reflexivity|].
  destruct (has_id id x); [reflexivity | rewrite IH; reflexivity].
Qed.

(** ** Link Store: removal and description edits *)

(** [Links.add] followed by [Links.remove] of the new link's id gives the
    links back, when no link had that id before; each call writes once. *)
Theorem links_remove_after_add :
  forall new_URL id now rawUrl st,
    truthy (trim rawUrl) = true ->
    ~ In id (map link_id (links st)) ->
    let st1 := links_add new_URL id now rawUrl st in
    let st2 := links_remove id st1 in
    links st2 = links st /\ link_saves st2 = link_saves st ++ [links st1; links st].
Proof.
  intros new_URL id now rawUrl st Ht Hn st1 st2.
  assert (H1 : exists l, link_id l = id /\ st1 = link_save st (l :: links st)).
  { unfold st1; rewrite (links_add_nonblank new_URL id now rawUrl st Ht).
    eexists; split; [|reflexivity]; reflexivity. }
  destruct H1 as [l [Hid H1]].
  assert (H2 : links st2 = links st).
  { unfold st2, links_remove; rewrite H1; cbn [links link_save filter].
    unfold has_link_id at 1; rewrite Hid, jseqb_refl; cbn [negb].
    apply filter_negb_absent, (jseqb_absent link_id), Hn. }
  split; [exact H2|].
  rewrite <- H2; unfold st2, links_remove; rewrite H1; cbn [link_saves link_save].
  rewrite <- app_assoc; reflexivity.
Qed.

Lemma links_remove_after_add_witness :
  truthy (trim (js "example.com")) = true /\ ~ In (js "link_1") (map link_id (links no_links)) /\
  links (links_remove (js "link_1") (links_add new_URL_subset (js "link_1") 0 (js "example.com") no_links))
  = [].
Proof.
  assert (H1 : truthy (trim (js "example.com")) = true) by reflexivity.
  assert (H2 : ~ In (js "link_1") (map link_id (links no_links))) by (simpl; tauto).
  split; [exact H1|]; split; [exact H2|].
  exact (proj1 (links_remove_after_add new_URL_subset (js "link_1") 0 _ no_links H1 H2)).
Defined.

(** [updateDesc] on an existing link: a blank description keeps the old one
    (the links are unchanged), any other is stored trimmed; either way the
    links are written once. An unknown id changes nothing and writes
    nothing. *)
Theorem updateDesc_spec :
  forall id newDesc st,
    (find (has_link_id id) (links st) = None -> updateDesc id newDesc st = st) /\
    forall l, find (has_link_id id) (links st) = Some l ->
    let st' := updateDesc id newDesc st in
    link_saves st' = link_saves st ++ [links st'] /\
    (truthy (trim newDesc) = false -> links st' = links st) /\
    (truthy (trim newDesc) = true ->
     find (has_link_id id) (links st') = Some (set_description (trim newDesc) l)).
Proof.
  intros id newDesc st; split.
  - intros Hf; unfold updateDesc; rewrite Hf; reflexivity.
  - intros l Hf st'.
    assert (Hp : forall d x, has_link_id id (set_description d x) = has_link_id id x)
      by reflexivity.
    split; [|split].
    + unfold st', updateDesc; rewrite Hf; reflexivity.
    + intros Hb; unfold st', updateDesc; rewrite Hf; cbn [links link_save].
      apply (update_first_found_id _ _ _ l Hf); cbn beta.
      rewrite Hb; apply set_description_same.
    + intros Hb; unfold st', updateDesc; rewrite Hf; cbn [links link_save].
      rewrite find_update_first, Hf by (intros x; apply Hp); cbn [option_map].
      rewrite Hb; reflexivity.
Qed.

Definition one_link : link_state :=
  links_add new_URL_subset (js "link_1") 0 (js "example.com") no_links.

Lemma updateDesc_spec_witness :
  exists l, find (has_link_id (js "link_1")) (links one_link) = Some l /\
  truthy (trim (js "   ")) = false /\
  links (updateDesc (js "link_1") (js "   ") one_link) = links one_link.
Proof.
  destruct (find (has_link_id (js "link_1")) (links one_link)) as [l|] eqn:Hf;
    [|vm_compute in Hf; discriminate].
  exists l; split; [reflexivity|].
  assert (Hb : truthy (trim (js "   ")) = false) by reflexivity.
  split; [exact Hb|].
  exact (proj1 (proj2 (proj2 (updateDesc_spec (js "link_1") (js "   ") one_link) l Hf)) Hb).
Defined.

(** ** Sorting with a comparator that agrees with a key order *)

Section ConsistentSort.

Context {A K : Type} (key : A -> K) (before : K -> K -> bool) (keq : K -> K -> bool).
Context (P : A -> Prop) (cmp : A -> A -> jsnum).

(** On the elements satisfying [P], the comparator moves [a] after [b]
    exactly when [a]'s key is not [before] [b]'s, and [before] is a total
    preorder there. *)
Hypothesis Hcmp : forall x y, P x -> P y ->
  (0 <? sort_compare_value (cmp x y)) = negb (before (key x) (key y)).
Hypothesis Htotal : forall x y, P x -> P y ->
  before (key x) (key y) = false -> before (key y) (key x) = true.
Hypothesis Htrans : forall x y z, P x -> P y -> P z ->
  before (key x) (key y) = true -> before (key y) (key z) = true -> before (key x) (key z) = true.
Hypothesis Hrefl : forall x, P x -> before (key x) (key x) = true.
Hypothesis Hkeq : forall a b, keq a b = true -> a = b.

Definition key_before (a b : A) : Prop := before (key a) (key b) = true.

Lemma insert_consistent_sorted (x : A) (l : list A) :
  P x -> Forall P l -> StronglySorted key_before l ->
  StronglySorted key_before (insert_by cmp x l).
Proof.
  intros Px; induction l as [|y r IH]; intros HP Hs; simpl.
  - constructor; [constructor | constructor].
  - inversion HP as [|? ? Py Pr]; inversion Hs as [|? ? Hr Hy]; subst.
    rewrite (Hcmp x y Px Py).
    destruct (before (key x) (key y)) eqn:Hxy; cbn [negb].
    + constructor; [exact Hs|]; constructor; [exact Hxy|].
      apply Forall_forall; intros z Hz.
      apply (Htrans x y z Px Py (proj1 (Forall_forall _ _) Pr z Hz) Hxy).
      exact (proj1 (Forall_forall _ _) Hy z Hz).
    + constructor; [apply IH; assumption|].
      apply Forall_forall; intros z Hz.
      apply (Permutation_in _ (insert_by_perm cmp x r)) in Hz.
      destruct Hz as [<-|Hz]; [apply (Htotal x y Px Py Hxy)|].
      exact (proj1 (Forall_forall _ _) Hy z Hz).
Qed.

Lemma array_sort_Forall (Q : A -> Prop) (l : list A) : Forall Q l -> Forall Q (array_sort cmp l).
Proof.
  intros H; apply Forall_forall; intros z Hz.
  apply (Permutation_in _ (array_sort_perm cmp l)) in Hz.
  exact (proj1 (Forall_forall _ _) H z Hz).
Qed.

Lemma array_sort_consistent_sorted (l : list A) :
  Forall P l -> StronglySorted key_before (array_sort cmp l).
Proof.
  induction l as [|x r IH]; intros HP; [constructor|].
  inversion HP as [|? ? Px Pr]; subst.
  unfold array_sort; cbn [fold_right]; fold (array_sort cmp r).
  apply insert_consistent_sorted; [exact Px | apply array_sort_Forall, Pr | apply IH, Pr].
Qed.

Lemma filter_insert_consistent (k : K) (x : A) (l : list A) :
  P x -> Forall P l ->
  filter (fun t => keq (key t) k) (insert_by cmp x l)
  = if keq (key x) k then x :: filter (fun t => keq (key t) k) l
    else filter (fun t => keq (key t) k) l.
Proof.
  intros Px; induction l as [|y r IH]; intros HP; simpl; [destruct (keq (key x) k); reflexivity|].
  inversion HP as [|? ? Py Pr]; subst.
  rewrite (Hcmp x y Px Py).
  destruct (before (key x) (key y)) eqn:Hxy; cbn [negb]; [reflexivity|].
  cbn [filter]; rewrite (IH Pr).
  destruct (keq (key x) k) eqn:Ex, (keq (key y) k) eqn:Ey; try reflexivity.
  apply Hkeq in Ex; apply Hkeq in Ey.
  rewrite Ex, <- Ey, (Hrefl y Py) in Hxy; discriminate.
Qed.

Lemma filter_array_sort_consistent (k : K) (l : list A) :
  Forall P l ->
  filter (fun t => keq (key t) k) (array_sort cmp l) = filter (fun t => keq (key t) k) l.
Proof.
  induction l as [|x r IH]; intros HP; [reflexivity|].
  inversion HP as [|? ? Px Pr]; subst.
  unfold array_sort; cbn [fold_right]; fold (array_sort cmp r).
  rewrite filter_insert_consistent by (exact Px || apply array_sort_Forall, Pr).
  rewrite (IH Pr); cbn [filter]; reflexivity.
Qed.

End ConsistentSort.

Lemma StronglySorted_weaken {A} (R S : A -> A -> Prop) (l : list A) :
  (forall a b, R a b -> S a b) -> StronglySorted R l -> StronglySorted S l.
Proof.
  intros H; induction 1 as [|x r Hr IH Hx]; constructor; [exact IH|].
  eapply Forall_impl; [|exact Hx]; auto.
Qed.

(** Deadline order: a date before a later one, any date before the missing
    deadline ([Infinity]). *)
Definition deadline_before (a b : jsnum) : bool :=
  match a, b with
  | Num x, Num y => x <=? y
  | PosInf, Num _ => false
  | _, _ => true
  end.

Definition jsnum_eqb (a b : jsnum) : bool :=
  match a, b with
  | Num x, Num y => x =? y
  | PosInf, PosInf | NegInf, NegInf | NaN, NaN => true
  | _, _ => false
  end.

Lemma jsnum_eqb_eq a b : jsnum_eqb a b = true -> a = b.
Proof. destruct a, b; simpl; try discriminate; try reflexivity. intros H; apply Z.eqb_eq in H; subst; reflexivity. Qed.

Lemma deadline_key_not_neg dos lm t : deadline_key dos lm t <> NegInf.
Proof.
  unfold deadline_key; destruct (deadline t) as [d|]; [|discriminate].
  destruct (truthy d); [|discriminate].
  destruct (parseDeadline dos lm d); discriminate.
Qed.

Lemma sort_cmp_other dos lm srt :
  jseqb srt (js "oldest") = false -> jseqb srt (js "deadline") = false ->
  jseqb srt (js "priority") = false ->
  sort_cmp dos lm srt = fun a b => Num (createdAt b - createdAt a).
Proof. intros H1 H2 H3; unfold sort_cmp; rewrite H1, H2, H3; reflexivity. Qed.

(** Newest first, the order for every sort key other than [oldest],
    [deadline] and [priority] (the default [newest] included): the view is a
    reordering of the filtered tasks, latest creation time first, and tasks
    created at the same time keep their order in the collection. *)
Theorem getVisible_newest :
  forall dos lm td flt srt ts,
    jseqb srt (js "oldest") = false -> jseqb srt (js "deadline") = false ->
    jseqb srt (js "priority") = false ->
    let filtered := apply_filter dos lm td flt ts in
    let out := getVisible dos lm td flt srt ts in
    Permutation out filtered /\
    StronglySorted (fun a b => createdAt b <= createdAt a) out /\
    forall c, filter (fun t => createdAt t =? c) out = filter (fun t => createdAt t =? c) filtered.
Proof.
  intros dos lm td flt srt ts H1 H2 H3 filtered out.
  unfold out, getVisible; rewrite (sort_cmp_other dos lm srt H1 H2 H3); fold filtered.
  assert (HP : Forall (fun _ => True) filtered) by (apply Forall_forall; trivial).
  assert (Hc : forall x y : todo, True -> True ->
            (0 <? sort_compare_value (Num (createdAt y - createdAt x)))
            = negb ((fun a b => b <=? a) (createdAt x) (createdAt y))).
  { intros x y _ _; cbn [sort_compare_value].
    destruct (Z.ltb_spec 0 (createdAt y - createdAt x)), (Z.leb_spec (createdAt y) (createdAt x));
      reflexivity || lia. }
  assert (Ht : forall x y : todo, True -> True ->
            (fun a b => b <=? a) (createdAt x) (createdAt y) = false ->
            (fun a b => b <=? a) (createdAt y) (createdAt x) = true)
    by (intros x y _ _ H; apply Z.leb_gt in H; apply Z.leb_le; lia).
  assert (Htr : forall x y z : todo, True -> True -> True ->
            (fun a b => b <=? a) (createdAt x) (createdAt y) = true ->
            (fun a b => b <=? a) (createdAt y) (createdAt z) = true ->
            (fun a b => b <=? a) (createdAt x) (createdAt z) = true)
    by (intros x y z _ _ _ Ha Hb; apply Z.leb_le in Ha, Hb; apply Z.leb_le; lia).
  assert (Hr : forall x : todo, True -> (fun a b => b <=? a) (createdAt x) (createdAt x) = true)
    by (intros x _; apply Z.leb_le; lia).
  split; [apply array_sort_perm|]; split.
  - apply (StronglySorted_weaken (key_before createdAt (fun a b => b <=? a))).
    + intros a b H; apply Z.leb_le, H.
    + exact (array_sort_consistent_sorted createdAt _ _ _ Hc Ht Htr filtered HP).
  - intros c.
    exact (filter_array_sort_consistent createdAt _ Z.eqb _ _ Hc Hr
             (fun a b => proj1 (Z.eqb_eq a b)) c filtered HP).
Qed.

Lemma getVisible_newest_witness :
  jseqb (js "newest") (js "oldest") = false /\ jseqb (js "newest") (js "deadline") = false /\
  jseqb (js "newest") (js "priority") = false /\
  StronglySorted (fun a b => createdAt b <= createdAt a)
    (getVisible sample_date_of_string utc_midnight today_2026_10_19 (js "all") (js "newest")
       (todos two_tasks)).
Proof.
  assert (H1 : jseqb (js "newest") (js "oldest") = false) by reflexivity.
  assert (H2 : jseqb (js "newest") (js "deadline") = false) by reflexivity.
  assert (H3 : jseqb (js "newest") (js "priority") = false) by reflexivity.
  split; [exact H1|]; split; [exact H2|]; split; [exact H3|].
  exact (proj1 (proj2 (getVisible_newest sample_date_of_string utc_midnight today_2026_10_19 (js "all")
              (js "newest") (todos two_tasks) H1 H2 H3))).
Defined.

(** Oldest first: the view is a reordering of the filtered tasks, earliest
    creation time first, and tasks created at the same time keep their order
    in the collection. *)
Theorem getVisible_oldest :
  forall dos lm td flt ts,
    let filtered := apply_filter dos lm td flt ts in
    let out := getVisible dos lm td flt (js "oldest") ts in
    Permutation out filtered /\
    StronglySorted (fun a b => createdAt a <= createdAt b) out /\
    forall c, filter (fun t => createdAt t =? c) out = filter (fun t => createdAt t =? c) filtered.
Proof.
  intros dos lm td flt ts filtered out.
  assert (E : sort_cmp dos lm (js "oldest") = fun a b => Num (createdAt a - createdAt b))
    by reflexivity.
  unfold out, getVisible; rewrite E; fold filtered.
  assert (HP : Forall (fun _ => True) filtered) by (apply Forall_forall; trivial).
  assert (Hc : forall x y : todo, True -> True ->
            (0 <? sort_compare_value (Num (createdAt x - createdAt y)))
            = negb (Z.leb (createdAt x) (createdAt y))).
  { intros x y _ _; cbn [sort_compare_value].
    destruct (Z.ltb_spec 0 (createdAt x - createdAt y)), (Z.leb_spec (createdAt x) (createdAt y));
      reflexivity || lia. }
  assert (Ht : forall x y : todo, True -> True ->
            Z.leb (createdAt x) (createdAt y) = false -> Z.leb (createdAt y) (createdAt x) = true)
    by (intros x y _ _ H; apply Z.leb_gt in H; apply Z.leb_le; lia).
  assert (Htr : forall x y z : todo, True -> True -> True ->
            Z.leb (createdAt x) (createdAt y) = true -> Z.leb (createdAt y) (createdAt z) = true ->
            Z.leb (createdAt x) (createdAt z) = true)
    by (intros x y z _ _ _ Ha Hb; apply Z.leb_le in Ha, Hb; apply Z.leb_le; lia).
  assert (Hr : forall x : todo, True -> Z.leb (createdAt x) (createdAt x) = true)
    by (intros x _; apply Z.leb_le; lia).
  split; [apply array_sort_perm|]; split.
  - apply (StronglySorted_weaken (key_before createdAt Z.leb)).
    + intros a b H; apply Z.leb_le, H.
    + exact (array_sort_consistent_sorted createdAt _ _ _ Hc Ht Htr filtered HP).
  - intros c.
    exact (filter_array_sort_consistent createdAt _ Z.eqb _ _ Hc Hr
             (fun a b => proj1 (Z.eqb_eq a b)) c filtered HP).
Qed.

(** Deadline order, when every filtered task's deadline is either missing or
    a date the host parses: the view is a reordering of the filtered tasks in
    which deadlines increase, the tasks without a deadline come last, and
    tasks with the same deadline keep their order in the collection. *)
Theorem getVisible_deadline :
  forall dos lm td flt ts,
    let filtered := apply_filter dos lm td flt ts in
    let out := getVisible dos lm td flt (js "deadline") ts in
    Forall (fun t => deadline_key dos lm t <> NaN) filtered ->
    Permutation out filtered /\
    StronglySorted (fun a b => deadline_before (deadline_key dos lm a) (deadline_key dos lm b) = true) out /\
    forall k, filter (fun t => jsnum_eqb (deadline_key dos lm t) k) out
              = filter (fun t => jsnum_eqb (deadline_key dos lm t) k) filtered.
Proof.
  intros dos lm td flt ts filtered out HP.
  set (key := deadline_key dos lm).
  set (P := fun t => key t <> NaN).
  assert (E : sort_cmp dos lm (js "deadline") = fun a b => num_sub (key a) (key b))
    by reflexivity.
  unfold out, getVisible; rewrite E; fold filtered.
  assert (Hn : forall x, key x <> NegInf) by (intros x; apply deadline_key_not_neg).
  assert (Hc : forall x y, P x -> P y ->
            (0 <? sort_compare_value (num_sub (key x) (key y)))
            = negb (deadline_before (key x) (key y))).
  { intros x y Px Py; unfold P in *; specialize (Hn x) as Nx; specialize (Hn y) as Ny.
    destruct (key x), (key y); try contradiction; try reflexivity.
    cbn [num_sub sort_compare_value deadline_before].
    destruct (Z.ltb_spec 0 (z - z0)), (Z.leb_spec z z0); reflexivity || lia. }
  assert (Ht : forall x y, P x -> P y ->
            deadline_before (key x) (key y) = false -> deadline_before (key y) (key x) = true).
  { intros x y Px Py; unfold P in *; specialize (Hn x) as Nx; specialize (Hn y) as Ny.
    destruct (key x), (key y); try contradiction; cbn [deadline_before]; try discriminate;
      try reflexivity.
    intros H; apply Z.leb_gt in H; apply Z.leb_le; lia. }
  assert (Htr : forall x y z, P x -> P y -> P z ->
            deadline_before (key x) (key y) = true -> deadline_before (key y) (key z) = true ->
            deadline_before (key x) (key z) = true).
  { intros x y z Px Py Pz; unfold P in *.
    specialize (Hn x) as Nx; specialize (Hn y) as Ny; specialize (Hn z) as Nz.
    destruct (key x), (key y), (key z); try contradiction; cbn [deadline_before];
      try discriminate; try reflexivity.
    intros Ha Hb; apply Z.leb_le in Ha, Hb; apply Z.leb_le; lia. }
  assert (Hr : forall x, P x -> deadline_before (key x) (key x) = true).
  { intros x Px; unfold P in *; specialize (Hn x) as Nx.
    destruct (key x); try contradiction; try reflexivity; apply Z.leb_le; lia. }
  split; [apply array_sort_perm|]; split.
  - exact (array_sort_consistent_sorted key _ P _ Hc Ht Htr filtered HP).
  - intros k.
    exact (filter_array_sort_consistent key _ jsnum_eqb P _ Hc Hr jsnum_eqb_eq k filtered HP).
Qed.

Lemma getVisible_deadline_witness :
  Forall (fun t => deadline_key sample_date_of_string utc_midnight t <> NaN)
    (apply_filter sample_date_of_string utc_midnight today_2026_10_19 (js "all") (todos two_tasks)) /\
  StronglySorted (fun a b => deadline_before (deadline_key sample_date_of_string utc_midnight a)
                               (deadline_key sample_date_of_string utc_midnight b) = true)
    (getVisible sample_date_of_string utc_midnight today_2026_10_19 (js "all") (js "deadline")
       (todos two_tasks)).
Proof.
  assert (HP : Forall (fun t => deadline_key sample_date_of_string utc_midnight t <> NaN)
    (apply_filter sample_date_of_string utc_midnight today_2026_10_19 (js "all") (todos two_tasks))).
  { vm_compute; repeat constructor; discriminate. }
  split; [exact HP|].
  exact (proj1 (proj2 (getVisible_deadline sample_date_of_string utc_midnight today_2026_10_19
                         (js "all") (todos two_tasks) HP))).
Defined.

(** ** Views and status predicates *)

Lemma isOverdue_not_completed dos lm td t : isOverdue dos lm td t = true -> completed t = false.
Proof. unfold isOverdue; destruct (completed t); [rewrite orb_true_r; discriminate | reflexivity]. Qed.

Lemma filter_partition_perm {A} (p : A -> bool) (l : list A) :
  Permutation (filter (fun x => negb (p x)) l ++ filter p l) l.
Proof.
  induction l as [|x r IH]; simpl; [constructor|].
  destruct (p x); simpl.
  - apply Permutation_sym, Permutation_cons_app, Permutation_sym, IH.
  - constructor; exact IH.
Qed.

(** The filters: [all] (and any name other than [active], [completed] and
    [overdue]) shows every task; the [active] and [completed] views split
    the tasks between them; every overdue task is also in the [active]
    view. *)
Theorem apply_filter_views :
  forall dos lm td ts,
    (forall flt, jseqb flt (js "active") = false -> jseqb flt (js "completed") = false ->
                 jseqb flt (js "overdue") = false -> apply_filter dos lm td flt ts = ts) /\
    Permutation (apply_filter dos lm td (js "active") ts ++ apply_filter dos lm td (js "completed") ts) ts /\
    (forall t, In t (apply_filter dos lm td (js "overdue") ts) ->
               In t (apply_filter dos lm td (js "active") ts)).
Proof.
  intros dos lm td ts; split; [|split].
  - intros flt H1 H2 H3; unfold apply_filter; rewrite H1, H2, H3; reflexivity.
  - exact (filter_partition_perm completed ts).
  - intros t Ht; cbv [apply_filter] in Ht |- *; cbn [jseqb js] in Ht |- *.
    change (jseqb (js "overdue") (js "active")) with false in Ht.
    change (jseqb (js "overdue") (js "completed")) with false in Ht.
    change (jseqb (js "overdue") (js "overdue")) with true in Ht.
    change (jseqb (js "active") (js "active")) with true.
    cbn iota in Ht |- *.
    apply filter_In in Ht as [Hin Ho]; apply filter_In; split; [exact Hin|].
    rewrite (isOverdue_not_completed dos lm td t Ho); reflexivity.
Qed.

Lemma apply_filter_views_witness :
  jseqb (js "all") (js "active") = false /\ jseqb (js "all") (js "completed") = false /\
  jseqb (js "all") (js "overdue") = false /\
  apply_filter sample_date_of_string utc_midnight today_2026_10_19 (js "all") (todos two_tasks)
  = todos two_tasks.
Proof.
  assert (H1 : jseqb (js "all") (js "active") = false) by reflexivity.
  assert (H2 : jseqb (js "all") (js "completed") = false) by reflexivity.
  assert (H3 : jseqb (js "all") (js "overdue") = false) by reflexivity.
  split; [exact H1|]; split; [exact H2|]; split; [exact H3|].
  exact (proj1 (apply_filter_views sample_date_of_string utc_midnight today_2026_10_19
                  (todos two_tasks)) (js "all") H1 H2 H3).
Defined.

(** No task is both overdue and in warning. *)
Theorem isOverdue_isWarning_exclusive :
  forall dos lm td t, isOverdue dos lm td t && isWarning dos lm td t = false.
Proof.
  intros dos lm td t; unfold isOverdue, isWarning.
  destruct (negb (deadline_truthy t) || completed t); [reflexivity|].
  destruct (deadline t) as [d|]; [|reflexivity].
  destruct (parseDeadline dos lm d) as [due|]; [|reflexivity].
  destruct (Z.ltb_spec due (today lm td)), (Z.leb_spec (today lm td) due); simpl;
    reflexivity || lia.
Qed.

(** [load()] when the key is missing or its text is not valid JSON:
    [Storage.get] returns the default [[]], the collection is empty and the
    storage is left as it is. *)
Theorem load_fallback_empty :
  forall JSON_parse st,
    (storage_lookup (local_storage st) STORAGE_KEY = None \/
     exists raw, storage_lookup (local_storage st) STORAGE_KEY = Some raw /\ JSON_parse raw = None) ->
    load JSON_parse st = Some (mkAppState [] (local_storage st)).
Proof.
  intros JSON_parse st [H|[raw [H Hp]]]; unfold load, storage_get; rewrite H; [reflexivity|].
  rewrite Hp; reflexivity.
Qed.

Lemma load_fallback_empty_witness :
  storage_lookup (local_storage (mkAppState [] [])) STORAGE_KEY = None /\
  load sample_JSON_parse (mkAppState [] []) = Some (mkAppState [] []).
Proof.
  assert (H : storage_lookup (local_storage (mkAppState [] [])) STORAGE_KEY = None) by reflexivity.
  split; [exact H|].
  exact (load_fallback_empty sample_JSON_parse (mkAppState [] []) (or_introl H)).
Defined.

(** [load()] when the stored text parses to something other than an array
    (for instance the text [null]): [raw.map] throws a [TypeError]. *)
Theorem load_non_array_throws :
  forall JSON_parse st raw v,
    storage_lookup (local_storage st) STORAGE_KEY = Some raw ->
    JSON_parse raw = Some v ->
    (forall xs, v <> JArr xs) ->
    load JSON_parse st = None.
Proof.
  intros JSON_parse st raw v H Hp Hv; unfold load, storage_get; rewrite H, Hp.
  destruct v; try reflexivity; exfalso; eapply Hv; reflexivity.
Qed.

Definition null_JSON_parse (raw : jsstr) : option json :=
  if jseqb raw (js "null") then Some JNull else None.

Definition null_storage : app_state := mkAppState [] [(STORAGE_KEY, js "null")].

Lemma load_non_array_throws_witness :
  storage_lookup (local_storage null_storage) STORAGE_KEY = Some (js "null") /\
  null_JSON_parse (js "null") = Some JNull /\
  load null_JSON_parse null_storage = None.
Proof.
  assert (H1 : storage_lookup (local_storage null_storage) STORAGE_KEY = Some (js "null"))
    by reflexivity.
  assert (H2 : null_JSON_parse (js "null") = Some JNull) by reflexivity.
  split; [exact H1|]; split; [exact H2|].
  exact (load_non_array_throws null_JSON_parse null_storage _ JNull H1 H2 (fun xs E => ltac:(discriminate E))).
Defined.

(** ** Link Store: descriptions *)

Lemma find_none_all {A} (p : A -> bool) (l : list A) :
  (forall x, In x l -> p x = false) -> find p l = None.
Proof.
  induction l as [|x r IH]; intros H; simpl; [reflexivity|].
  rewrite (H x (or_introl eq_refl)); apply IH; intros y Hy; apply H; right; exact Hy.
Qed.

(** [autoDescribe] of a URL whose path segments are all empty, numeric or
    one character long is the capitalised hostname without its [www.]. *)
Theorem autoDescribe_host_only :
  forall new_URL u parsed,
    new_URL u = Some parsed ->
    (forall seg, In seg (split_on 47 (pathname parsed)) ->
       let s := trim (dashes_to_spaces seg) in
       truthy s = false \/ all_digits s = true \/ (List.length s <= 1)%nat) ->
    autoDescribe new_URL u = cap (strip_www (hostname parsed)).
Proof.
  intros new_URL u parsed Hu Hseg; unfold autoDescribe; rewrite Hu; cbv zeta.
  set (parts := filter truthy (map (fun s => trim (dashes_to_spaces s)) (split_on 47 (pathname parsed)))).
  assert (Hn : find (fun p => negb (all_digits p) && (1 <? Z.of_nat (List.length p))) (rev parts) = None).
  { apply find_none_all; intros x Hx; apply in_rev in Hx.
    apply filter_In in Hx as [Hx Ht]; apply in_map_iff in Hx as [seg [<- Hin]].
    destruct (Hseg seg Hin) as [H|[H|H]].
    - rewrite Ht in H; discriminate.
    - rewrite H; reflexivity.
    - apply andb_false_iff; right; apply Z.ltb_ge; lia. }
  destruct parts; [reflexivity|]; rewrite Hn; reflexivity.
Qed.

Definition dated_url : jsstr := js "https://www.example.com/2024/05/".

Lemma autoDescribe_host_only_witness :
  exists parsed, new_URL_subset dated_url = Some parsed /\
  (forall seg, In seg (split_on 47 (pathname parsed)) ->
     let s := trim (dashes_to_spaces seg) in
     truthy s = false \/ all_digits s = true \/ (List.length s <= 1)%nat) /\
  autoDescribe new_URL_subset dated_url = js "Example.com".
Proof.
  destruct (new_URL_subset dated_url) as [parsed|] eqn:Hu; [|vm_compute in Hu; discriminate].
  assert (Hp : parsed = mkURL (js "www.example.com") (js "/2024/05/"))
    by (vm_compute in Hu; injection Hu as <-; reflexivity).
  assert (Hseg : forall seg, In seg (split_on 47 (pathname parsed)) ->
     let s := trim (dashes_to_spaces seg) in
     truthy s = false \/ all_digits s = true \/ (List.length s <= 1)%nat).
  { rewrite Hp; vm_compute; intros seg H; cbv zeta.
    repeat (destruct H as [<-|H]; [vm_compute; tauto|]); contradiction. }
  exists parsed; split; [reflexivity|]; split; [exact Hseg|].
  rewrite (autoDescribe_host_only new_URL_subset dated_url parsed Hu Hseg), Hp; reflexivity.
Defined.
